(** * Savings tracker: history reconstruction, cumulative totals, forecast

    A shallow embedding of the computational core of [saving/main.py]:

    - [compute_growth_monthly] and [compute_growth] (lines 163-173);
    - the history reconstruction loop of [tab_main] (lines 223-246), called
      [reconstruct] here, with the annual rate of line 223 as a parameter;
    - the cumulative loop of [tab_forecast] (lines 267-276), called
      [cumulative] here.

    Both loops run over [deposits_sorted], the rows sorted by date (lines
    221 and 264); the embedding takes that list as its input.

    Numbers.  The program computes with Python floats.  They are modelled by
    the real numbers [R]: [+], [*] and [**] are the exact operations, so
    rounding, overflow to infinity and NaN are outside the model.  The
    theorems are chosen so that rounding does not undo them: they state
    counts, dates, signs, orders, and equalities between two runs of the
    same sequence of operations.  A negative number raised to [1 / 12] is
    a complex number in Python; that happens for an annual rate below -1
    and is outside the model.

    Dates.  A deposit date is a [datetime] at midnight, obtained with
    [datetime.fromisoformat] from a [YYYY-MM-DD] string.  Such a value is
    modelled by its proleptic Gregorian ordinal (what [toordinal()] returns);
    [.year] and [.month] are read back from the ordinal with the algorithm
    of the interpreter's [datetime] module.  Adding [timedelta(days=n)] adds
    [n] to the ordinal, and comparing two datetimes compares ordinals.
    [ord2ymd_ymd2ord] and [ymd2ord_order] below show that this agrees with
    a datetime kept as year, month and day.  Record dates are taken as
    they are; where the program computes a date that [datetime] cannot
    hold (past year 9999, line 289) the [OverflowError] is modelled.

    Layout: the program ([Calendar], [Savings]), the vocabulary of the
    properties ([CalendarTables], [Reference]), then the proofs. *)

From Stdlib Require Import ZArith List Lia Bool Sorted.
From Stdlib Require Import Reals Lra.
From Stdlib Require Import Permutation.
From Stdlib Require Strings.String.
Import ListNotations.

(** ** Calendar arithmetic of [datetime] *)

Module Calendar.
Local Open Scope Z_scope.

(** A datetime at midnight, as its ordinal: day 1 is 0001-01-01. *)
Definition datetime : Type := Z.

Definition _DAYS_IN_MONTH : list Z :=
  [-1; 31; 28; 31; 30; 31; 30; 31; 31; 30; 31; 30; 31].

Definition _DAYS_BEFORE_MONTH : list Z :=
  [-1; 0; 31; 59; 90; 120; 151; 181; 212; 243; 273; 304; 334].

Definition table (t : list Z) (i : Z) : Z := nth (Z.to_nat i) t 0.

Definition _is_leap (year : Z) : bool :=
  (year mod 4 =? 0) && (negb (year mod 100 =? 0) || (year mod 400 =? 0)).

Definition _days_before_year (year : Z) : Z :=
  let y := year - 1 in
  y * 365 + y / 4 - y / 100 + y / 400.

Definition _days_before_month (year month : Z) : Z :=
  table _DAYS_BEFORE_MONTH month
  + (if (2 <? month) && _is_leap year then 1 else 0).

Definition _ymd2ord (year month day : Z) : Z :=
  _days_before_year year + _days_before_month year month + day.

Definition _DI400Y : Z := Eval cbv in _days_before_year 401.
Definition _DI100Y : Z := Eval cbv in _days_before_year 101.
Definition _DI4Y : Z := Eval cbv in _days_before_year 5.

(** [_ord2ymd n]: the (year, month, day) of ordinal [n]. *)
Definition _ord2ymd (n : Z) : Z * Z * Z :=
  let n := n - 1 in
  let n400 := n / _DI400Y in
  let n := n mod _DI400Y in
  let year := n400 * 400 + 1 in
  let n100 := n / _DI100Y in
  let n := n mod _DI100Y in
  let n4 := n / _DI4Y in
  let n := n mod _DI4Y in
  let n1 := n / 365 in
  let n := n mod 365 in
  let year := year + (n100 * 100 + n4 * 4 + n1) in
  if (n1 =? 4) || (n100 =? 4) then (year - 1, 12, 31)
  else
    let leapyear := (n1 =? 3) && (negb (n4 =? 24) || (n100 =? 3)) in
    let month := Z.shiftr (n + 50) 5 in
    let preceding :=
      table _DAYS_BEFORE_MONTH month
      + (if (2 <? month) && leapyear then 1 else 0) in
    if n <? preceding then
      let month := month - 1 in
      let preceding :=
        preceding
        - (table _DAYS_IN_MONTH month
           + (if (month =? 2) && leapyear then 1 else 0)) in
      (year, month, n - preceding + 1)
    else (year, month, n - preceding + 1).

(** [_days_in_month(year, month)] *)
Definition _days_in_month (year month : Z) : Z :=
  if (month =? 2) && _is_leap year then 29 else table _DAYS_IN_MONTH month.

(** What the constructor of a date accepts for the month and the day. *)
Definition valid_date (year month day : Z) : Prop :=
  1 <= month <= 12 /\ 1 <= day <= _days_in_month year month.

(** Order of the fields, as two datetimes are compared. *)
Definition ymd_lt (y1 m1 d1 y2 m2 d2 : Z) : Prop :=
  y1 < y2 \/ (y1 = y2 /\ (m1 < m2 \/ (m1 = m2 /\ d1 < d2))).

(** [datetime(year, month, day)] *)
Definition mk_datetime (year month day : Z) : datetime :=
  _ymd2ord year month day.

Definition year (d : datetime) : Z := fst (fst (_ord2ymd d)).
Definition month (d : datetime) : Z := snd (fst (_ord2ymd d)).
Definition day (d : datetime) : Z := snd (_ord2ymd d).

(** [d + timedelta(days=n)] *)
Definition add_days (d : datetime) (n : Z) : datetime := d + n.

(** [d1 <= d2] on datetimes *)
Definition date_le (d1 d2 : datetime) : Prop := d1 <= d2.

(** [date.max.toordinal()]: the ordinal of 9999-12-31. *)
Definition _MAXORDINAL : Z := 3652059.

(** [timedelta(days=n)]: [None] is the [OverflowError] raised beyond
    999999999 days either way. *)
Definition timedelta_days (n : Z) : option Z :=
  if Z.abs n <=? 999999999 then Some n else None.

(** [d + timedelta(days=n)] with its errors: [None] is the
    [OverflowError] of a [timedelta] too large or of a result outside
    0001-01-01 .. 9999-12-31. *)
Definition add_timedelta (d : datetime) (n : Z) : option datetime :=
  match timedelta_days n with
  | None => None
  | Some days =>
      if (0 <? d + days) && (d + days <=? _MAXORDINAL)
      then Some (add_days d days)
      else None
  end.

(** Line 234: [(date.year - last_date.year) * 12 + (date.month - last_date.month)] *)
Definition months_between (last_date date : datetime) : Z :=
  (year date - year last_date) * 12 + (month date - month last_date).

End Calendar.

(** ** The year of [_ord2ymd] taken apart *)

Module CalendarTables.
Import Calendar.
Local Open Scope Z_scope.

(** The month and day of the [n]-th day (from 0) of a year. *)
Definition in_year (leapyear : bool) (n : Z) : Z * Z :=
  let month := Z.shiftr (n + 50) 5 in
  let preceding :=
    table _DAYS_BEFORE_MONTH month
    + (if (2 <? month) && leapyear then 1 else 0) in
  if n <? preceding then
    let month := month - 1 in
    let preceding :=
      preceding
      - (table _DAYS_IN_MONTH month
         + (if (month =? 2) && leapyear then 1 else 0)) in
    (month, n - preceding + 1)
  else (month, n - preceding + 1).

(** Leap years from the digits of [year - 1] in base 400, 100, 4. *)
Definition leap_of (b c e : Z) : bool :=
  (e =? 3) && (negb (c =? 24) || (b =? 3)).

(** Days in a month of a leap or common year. *)
Definition days_in (leap : bool) (month : Z) : Z :=
  if (month =? 2) && leap then 29 else table _DAYS_IN_MONTH month.

(** The day of the year, from 0, of a month and a day. *)
Definition day_of_year (leap : bool) (month day : Z) : Z :=
  table _DAYS_BEFORE_MONTH month
  + (if (2 <? month) && leap then 1 else 0) + day - 1.

(** [in_year] finds the month and day of a day of the year. *)
Definition in_year_ok (leap : bool) (month day : Z) : bool :=
  implb (day <=? days_in leap month)
    (let doy := day_of_year leap month day in
     (0 <=? doy) && (doy <=? 364 + (if leap then 1 else 0))
     && (if doy =? 365 then (month =? 12) && (day =? 31)
         else (fst (in_year leap doy) =? month)
              && (snd (in_year leap doy) =? day))).

Definition in_year_table : bool :=
  forallb (fun leap =>
    forallb (fun m =>
      forallb (fun d => in_year_ok leap (Z.of_nat m) (Z.of_nat d)) (seq 1 31))
      (seq 1 12))
    [false; true].

(** The last day of a month comes before the first of a later one. *)
Definition months_ok (leap : bool) (m1 m2 : Z) : bool :=
  implb (m1 <? m2)
    (day_of_year leap m1 (days_in leap m1) <? day_of_year leap m2 1).

Definition months_table : bool :=
  forallb (fun leap =>
    forallb (fun m1 =>
      forallb (fun m2 => months_ok leap (Z.of_nat m1) (Z.of_nat m2)) (seq 1 12))
      (seq 1 12))
    [false; true].

End CalendarTables.

(** ** The savings computations *)

Module Savings.
Import Calendar.
Local Open Scope R_scope.

(** A row of [deposits_sorted]: [(date, amount, is_total, current_total)].
    [current_total] is a nullable REAL column: [None] or a number. *)
Record deposit : Type := mk_deposit {
  date : datetime;
  amount : R;
  is_total : bool;
  current_total : option R
}.

(** A point of the chart: an entry of [graph_dates] with the entry of
    [graph_values] at the same index. *)
Definition BalancePoint : Type := (datetime * R)%type.

(** Truth value of a number: zero is false. *)
Definition float_truthy (v : R) : bool :=
  if Req_dec_T v 0 then false else true.

(** Truth value of a nullable number: [None] and zero are false. *)
Definition truthy (x : option R) : bool :=
  match x with
  | Some v => float_truthy v
  | None => false
  end.

(** The number held by a nullable number that passed [truthy]. *)
Definition the (x : option R) : R :=
  match x with
  | Some v => v
  | None => 0
  end.

(** [range(n)]: empty when [n <= 0]. *)
Definition range (n : Z) : list Z := map Z.of_nat (seq 0 (Z.to_nat n)).

(** [x ** y] on numbers, for [x >= 0]: [0.0 ** y] is 1 for [y = 0] and 0
    for [y > 0], and a positive [x] gives the real power.  ([0.0 ** y]
    with [y < 0] raises and a negative [x] with a fractional [y] gives a
    complex number; neither is modelled, and the program's only exponent
    is [1 / 12].) *)
Definition float_pow (x y : R) : R :=
  if Req_dec_T x 0 then (if Req_dec_T y 0 then 1 else 0) else Rpower x y.

(** Line 169 and line 224: [(1 + annual_rate) ** (1 / 12) - 1]. *)
Definition monthly_rate_of (annual_rate : R) : R :=
  float_pow (1 + annual_rate) (1 / 12) - 1.

(** Lines 163-164. *)
Definition compute_growth_monthly (initial : R) (months : nat) (monthly_rate : R) : R :=
  initial * ((1 + monthly_rate) ^ months).

(** *** [compute_growth], lines 166-173 *)

Record growth_state : Type := mk_growth_state {
  value : R;
  amounts : list R
}.

(** One turn of the loop of lines 170-172. *)
Definition growth_step (monthly_rate monthly : R) (st : growth_state) (i : Z)
  : growth_state :=
  let value := value st * (1 + monthly_rate) + monthly in
  {| value := value; amounts := amounts st ++ [value] |}.

Definition compute_growth (initial monthly : R) (years : Z) (annual_rate : R)
  : list R :=
  let st := {| value := initial; amounts := [] |} in
  let monthly_rate := monthly_rate_of annual_rate in
  amounts (fold_left (growth_step monthly_rate monthly) (range (years * 12)) st).

(** *** History reconstruction, lines 223-246 *)

Record history : Type := mk_history {
  current_value : R;
  last_date : option datetime;
  graph_dates : list datetime;
  graph_values : list R
}.

(** Lines 226-230. *)
Definition history_init : history :=
  {| current_value := 0; last_date := None;
     graph_dates := []; graph_values := [] |}.

(** One turn of the inner loop, lines 236-239; [last] is [last_date]. *)
Definition interpolation_step (monthly_rate : R) (last : datetime)
  (st : history) (i : Z) : history :=
  let current_value := compute_growth_monthly (current_value st) 1 monthly_rate in
  let step_date := add_days last (30 * (i + 1)) in
  {| current_value := current_value;
     last_date := last_date st;
     graph_dates := graph_dates st ++ [step_date];
     graph_values := graph_values st ++ [current_value] |}.

(** Lines 233-239: nothing happens while [last_date] is [None]. *)
Definition interpolate (monthly_rate : R) (st : history) (r : deposit) : history :=
  match last_date st with
  | Some last =>
      fold_left (interpolation_step monthly_rate last)
        (range (months_between last (date r))) st
  | None => st
  end.

(** Lines 240-243. *)
Definition update_value (current_value : R) (r : deposit) : R :=
  if truthy (current_total r) then the (current_total r)
  else current_value + amount r.

(** One turn of the outer loop, lines 232-246. *)
Definition history_step (monthly_rate : R) (st : history) (r : deposit) : history :=
  let st := interpolate monthly_rate st r in
  let current_value := update_value (current_value st) r in
  {| current_value := current_value;
     last_date := Some (date r);
     graph_dates := graph_dates st ++ [date r];
     graph_values := graph_values st ++ [current_value] |}.

Definition run_history (growth_rate : R) (records : list deposit) : history :=
  fold_left (history_step (monthly_rate_of growth_rate)) records history_init.

(** The reconstructed series: [graph_dates] against [graph_values], as the
    chart of line 249 pairs them.  The annual rate is a parameter. *)
Definition reconstruct (records : list deposit) (growth_rate : R)
  : list BalancePoint :=
  let st := run_history growth_rate records in
  combine (graph_dates st) (graph_values st).

(** Line 223. *)
Definition growth_rate : R := 6 / 100.

(** *** Cumulative totals, lines 267-276 *)

Record cumulative_state : Type := mk_cumulative_state {
  total : R;
  cumulative_list : list R
}.

Definition cumulative_step (st : cumulative_state) (r : deposit) : cumulative_state :=
  let total :=
    if truthy (current_total r) then the (current_total r)
    else if is_total r then amount r
    else total st + amount r in
  {| total := total; cumulative_list := cumulative_list st ++ [total] |}.

Definition cumulative (records : list deposit) : list R :=
  cumulative_list
    (fold_left cumulative_step records {| total := 0; cumulative_list := [] |}).

End Savings.

(** ** Closed forms of the loops and the vocabulary of the properties *)

Module Reference.
Import Calendar Savings.
Local Open Scope R_scope.

(** The balance after [n] months of growth with no contribution. *)
Fixpoint compound (monthly_rate : R) (n : nat) (cv : R) : R :=
  match n with
  | O => cv
  | S n' => compound monthly_rate n' (compute_growth_monthly cv 1 monthly_rate)
  end.

(** The values of the [n] synthetic points that follow a balance [cv]. *)
Fixpoint synthetic_values (monthly_rate : R) (n : nat) (cv : R) : list R :=
  match n with
  | O => []
  | S n' =>
      let cv' := compute_growth_monthly cv 1 monthly_rate in
      cv' :: synthetic_values monthly_rate n' cv'
  end.

(** The dates of the synthetic points number [k+1], ..., [k+n] after [last]. *)
Definition synthetic_dates (last : datetime) (k n : nat) : list datetime :=
  map (fun i : nat => add_days last (30 * (Z.of_nat i + 1))) (seq k n).

(** Number of synthetic points between a record dated [last] and the next. *)
Definition gap (last next : datetime) : nat :=
  Z.to_nat (months_between last next).

(** The points emitted for the records [rs] that follow a record dated
    [last] which left the balance [cv]. *)
Fixpoint points_after (monthly_rate : R) (cv : R) (last : datetime)
  (rs : list deposit) : list BalancePoint :=
  match rs with
  | [] => []
  | r :: rs' =>
      let n := gap last (date r) in
      let cv' := update_value (compound monthly_rate n cv) r in
      combine (synthetic_dates last 0 n) (synthetic_values monthly_rate n cv)
      ++ (date r, cv') :: points_after monthly_rate cv' (date r) rs'
  end.

(** The balance of a series at its end; 0 before any point. *)
Definition final_value (points : list BalancePoint) : R :=
  last (map snd points) 0.

(** Dates never go back along the series. *)
Definition chronological (points : list BalancePoint) : Prop :=
  StronglySorted date_le (map fst points).

(** The records are in ascending date order. *)
Definition sorted_by_date (rs : list deposit) : Prop :=
  StronglySorted date_le (map date rs).

(** Every run of synthetic points ends no later than the record it leads to. *)
Fixpoint gaps_fit (last : datetime) (rs : list deposit) : Prop :=
  match rs with
  | [] => True
  | r :: rs' =>
      (gap last (date r) <> O ->
       date_le (add_days last (30 * Z.of_nat (gap last (date r)))) (date r))
      /\ gaps_fit (date r) rs'
  end.

Definition all_gaps_fit (rs : list deposit) : Prop :=
  match rs with
  | [] => True
  | r :: rs' => gaps_fit (date r) rs'
  end.

(** Values never go down along the list. *)
Definition non_decreasing (l : list R) : Prop := StronglySorted Rle l.

(** Each element is above the one before it. *)
Definition strictly_increasing (l : list R) : Prop :=
  forall i : nat, (S i < length l)%nat -> nth i l 0 < nth (S i) l 0.

(** The update rule that looks at [is_total] only: a total replaces the
    balance by [current_total], anything else adds [amount]. *)
Definition is_total_rule (r : deposit) (before after : R) : Prop :=
  if is_total r then current_total r = Some after
  else after = before + amount r.

(** The update rule that looks at [current_total] only. *)
Definition current_total_rule (r : deposit) (before after : R) : Prop :=
  match current_total r with
  | Some c => if Req_dec_T c 0 then after = before + amount r else after = c
  | None => after = before + amount r
  end.

(** The balance just before the update for the record [r] that follows the
    records [rs]: the balance left by [rs], grown over the gap. *)
Definition balance_before (growth_rate : R) (rs : list deposit) (r : deposit) : R :=
  current_value
    (interpolate (monthly_rate_of growth_rate) (run_history growth_rate rs) r).

(** The balance just after that update. *)
Definition balance_after (growth_rate : R) (rs : list deposit) (r : deposit) : R :=
  current_value (run_history growth_rate (rs ++ [r])).

(** Running totals, by recursion on the records. *)
Fixpoint running_totals (total : R) (rs : list deposit) : list R :=
  match rs with
  | [] => []
  | r :: rs' =>
      let total' :=
        match current_total r with
        | Some c =>
            if Req_dec_T c 0
            then (if is_total r then amount r else total + amount r)
            else c
        | None => if is_total r then amount r else total + amount r
        end in
      total' :: running_totals total' rs'
  end.

(** The forecast value of month [i], month 0 being the initial value. *)
Fixpoint forecast_value (monthly_rate monthly initial : R) (i : nat) : R :=
  match i with
  | O => initial
  | S j => forecast_value monthly_rate monthly initial j * (1 + monthly_rate) + monthly
  end.

(** A record with its [is_total] flag cleared. *)
Definition without_flag (r : deposit) : deposit :=
  {| date := date r; amount := amount r; is_total := false;
     current_total := current_total r |}.

(** A plain deposit of [amount r] on [date r]. *)
Definition as_deposit (r : deposit) : deposit :=
  {| date := date r; amount := amount r; is_total := false;
     current_total := None |}.

(** The dates emitted for records dated [ds] that follow a record dated
    [last]. *)
Fixpoint dates_after (last : datetime) (ds : list datetime) : list datetime :=
  match ds with
  | [] => []
  | d :: ds' => synthetic_dates last 0 (gap last d) ++ d :: dates_after d ds'
  end.

(** A series that ends with [n] synthetic points of value [v] and then a
    point [(d, w)]; at most the first record's own point comes before. *)
Definition flat_then_step (n : nat) (v : R) (d : datetime) (w : R)
  (points : list BalancePoint) : Prop :=
  exists first synthetic : list BalancePoint,
    points = first ++ synthetic ++ [(d, w)]
    /\ (length first <= 1)%nat
    /\ length synthetic = n
    /\ Forall (fun p => snd p = v) synthetic.

(** Month [i] of a forecast [out] seeded with [initial]: month 0 is the
    seed, month [i >= 1] is the [i]-th element of [out]. *)
Definition month_value (initial : R) (out : list R) (i : nat) : R :=
  match i with
  | O => initial
  | S j => nth j out 0
  end.

(** A record with no negative number in it. *)
Definition nonneg_record (r : deposit) : Prop :=
  0 <= amount r /\ (forall c : R, current_total r = Some c -> 0 <= c).

End Reference.

(** ** The pages around the computations *)

Module Pages.
Import Calendar Savings.
Local Open Scope R_scope.

(** [range(a, b)]: empty when [b <= a]. *)
Definition range_from (a b : Z) : list Z :=
  map (fun k : nat => (a + Z.of_nat k)%Z) (seq 0 (Z.to_nat (b - a))).

(** [x > 0] on numbers. *)
Definition float_gt_0 (x : R) : bool :=
  if Rlt_dec 0 x then true else false.

(** Lines 212-214, the "Add Deposit" button: the row handed to
    [save_deposit], as the loops read it back. *)
Definition add_deposit_record (new_date : datetime)
  (added_amount current_total : R) : deposit :=
  let is_total := float_gt_0 current_total in
  {| date := new_date;
     amount := added_amount;
     is_total := is_total;
     current_total := if is_total then Some current_total else None |}.

(** The dictionary stored in [st.session_state.forecast_data], lines
    300-307. *)
Record forecast_data : Type := mk_forecast_data {
  hist_dates : list datetime;
  hist_cumulative : list R;
  forecast_dates : list datetime;
  no_growth : list R;
  mid : list R;
  high : list R
}.

(** Lines 291-293. *)
Definition no_growth_rate : R := 0.
Definition mid_growth_rate : R := 4 / 100.
Definition high_growth_rate : R := 8 / 100.

(** The values of a list comprehension whose element expression may
    raise: [None] as soon as one element does. *)
Fixpoint all_or_none {A : Type} (l : list (option A)) : option (list A) :=
  match l with
  | [] => Some []
  | None :: _ => None
  | Some x :: l' =>
      match all_or_none l' with
      | Some xs => Some (x :: xs)
      | None => None
      end
  end.

(** Lines 263-307 with the "Run Forecast" button pressed: what the run
    stores in the session.  [None] is a run that stores nothing: the
    branch of line 332, taken when there is no deposit, or the
    [OverflowError] of line 289 when a forecast date cannot be held. *)
Definition run_forecast (deposits_sorted : list deposit) (monthly : R)
  (years : Z) : option forecast_data :=
  match deposits_sorted with
  | [] => None
  | first :: _ =>
      let hist_dates := map date deposits_sorted in
      let hist_cumulative := cumulative deposits_sorted in
      let last_date := last hist_dates (date first) in
      let last_amount := last hist_cumulative 0 in
      let months_forecast := (12 * years)%Z in
      match all_or_none
              (map (fun i : Z => add_timedelta last_date (30 * i))
                 (range_from 1 (months_forecast + 1))) with
      | None => None
      | Some forecast_dates =>
          Some {| hist_dates := hist_dates;
                  hist_cumulative := hist_cumulative;
                  forecast_dates := forecast_dates;
                  no_growth :=
                    compute_growth last_amount monthly years no_growth_rate;
                  mid := compute_growth last_amount monthly years mid_growth_rate;
                  high :=
                    compute_growth last_amount monthly years high_growth_rate |}
      end
  end.

End Pages.

(** ** Vocabulary of the further properties *)

Module Further.
Import Calendar Savings Reference Pages.
Local Open Scope R_scope.

(** The synthetic points emitted for records dated [ds] after [last]. *)
Fixpoint gaps_after (last : datetime) (ds : list datetime) : nat :=
  match ds with
  | [] => O
  | d :: ds' => (gap last d + gaps_after d ds')%nat
  end.

(** The synthetic points of a whole history. *)
Definition synthetic_count (rs : list deposit) : nat :=
  match map date rs with
  | [] => O
  | d :: ds => gaps_after d ds
  end.

(** Element by element, the first list is not above the second. *)
Definition pointwise_le (l1 l2 : list R) : Prop := Forall2 Rle l1 l2.

(** A record that carries no usable [current_total]: a plain deposit. *)
Definition plain (r : deposit) : Prop := truthy (current_total r) = false.


(** A forecast date that line 289 cannot compute: some month [k] of the
    horizon falls outside what [datetime] holds. *)
Definition axis_overflows (last_date : datetime) (years : Z) : Prop :=
  exists k : Z,
    (1 <= k <= 12 * years)%Z /\ add_timedelta last_date (30 * k) = None.

(** A record whose flag agrees with its [current_total]. *)
Definition flag_agrees (r : deposit) : Prop :=
  is_total r = truthy (current_total r).

(** What the history loop reads of a date: its year and its month. *)
Definition month_index (d : datetime) : Z := (year d * 12 + month d)%Z.

(** Two records that the history loop cannot tell apart by value. *)
Definition same_months (r1 r2 : deposit) : Prop :=
  month_index (date r1) = month_index (date r2)
  /\ amount r1 = amount r2
  /\ current_total r1 = current_total r2.

End Further.

(** ** The tables behind the pages *)

Module Store.
Local Open Scope Z_scope.

(** Text values. *)
Definition string : Type := String.string.

(** *** Table [users], lines 29-33: [username] is the primary key *)

Record user_row : Type := mk_user_row {
  username : string;
  password : string
}.

Definition users_table : Type := list user_row.

(** [SELECT password FROM users WHERE username = ?] and [fetchone()],
    lines 71-72. *)
Definition select_password (users : users_table) (name : string)
  : option string :=
  match filter (fun r => String.eqb (username r) name) users with
  | r :: _ => Some (password r)
  | [] => None
  end.

(** Truth value of what [authenticate_user] returns: [None] or a boolean. *)
Definition truth (x : option bool) : bool :=
  match x with
  | Some b => b
  | None => false
  end.

Section Accounts.

(** [hashlib.sha256(password.encode()).hexdigest()], line 54: the digest
    is a parameter. *)
Variable sha256_hexdigest : string -> string.

(** Lines 53-54. *)
Definition hash_password (pw : string) : string := sha256_hexdigest pw.

(** Lines 56-66: the [INSERT] raises [IntegrityError] when the username
    is taken, and the table is left as it was. *)
Definition add_user (users : users_table) (name pw : string)
  : users_table * bool :=
  if existsb (fun r => String.eqb (username r) name) users
  then (users, false)
  else (users ++ [{| username := name; password := hash_password pw |}], true).

(** Lines 68-74: [result and result[0] == hash_password(password)]. *)
Definition authenticate_user (users : users_table) (name pw : string)
  : option bool :=
  match select_password users name with
  | None => None
  | Some stored => Some (String.eqb stored (hash_password pw))
  end.

(** *** The session, lines 113-156 *)

Record app : Type := mk_app {
  users : users_table;
  logged_in : bool;
  session_user : string
}.

(** The buttons of the login page and the logout button. *)
Inductive event : Type :=
| Login (name pw : string)
| Register (name pw : string)
| Logout.

(** One run of the script with one button pressed: the login page is
    shown while [logged_in] is false, the logout button otherwise. *)
Definition step (a : app) (e : event) : app :=
  match e with
  | Login name pw =>
      if logged_in a then a
      else if truth (authenticate_user (users a) name pw)
           then {| users := users a; logged_in := true; session_user := name |}
           else a
  | Register name pw =>
      if logged_in a then a
      else {| users := fst (add_user (users a) name pw);
              logged_in := logged_in a;
              session_user := session_user a |}
  | Logout =>
      if logged_in a
      then {| users := users a; logged_in := false;
              session_user := String.EmptyString |}
      else a
  end.

Definition run (a : app) (es : list event) : app := fold_left step es a.

End Accounts.

(** *** Table [deposits], lines 35-43: [id] is [AUTOINCREMENT] *)

Record deposit_row : Type := mk_deposit_row {
  row_id : Z;
  row_user : string;
  row_date : string;
  row_amount : R;
  row_is_total : Z;
  row_current_total : option R
}.

(** The rows in insertion order and the largest id ever given, which the
    engine keeps for an [AUTOINCREMENT] key. *)
Record deposits_table : Type := mk_deposits_table {
  rows : list deposit_row;
  sequence : Z
}.

Definition max_id (rs : list deposit_row) : Z :=
  fold_right (fun r m => Z.max (row_id r) m) 0 rs.

(** The id of the next row: one above every id there is or ever was. *)
Definition next_id (t : deposits_table) : Z :=
  Z.max (sequence t) (max_id (rows t)) + 1.

(** Lines 76-82; [int(is_total)] is 1 or 0. *)
Definition save_deposit (t : deposits_table) (user date : string)
  (amount : R) (is_total : bool) (current_total : option R) : deposits_table :=
  let id := next_id t in
  {| rows := rows t
             ++ [{| row_id := id; row_user := user; row_date := date;
                    row_amount := amount;
                    row_is_total := if is_total then 1 else 0;
                    row_current_total := current_total |}];
     sequence := id |}.

(** Lines 92-97. *)
Definition delete_deposit (t : deposits_table) (deposit_id : Z) : deposits_table :=
  {| rows := filter (fun r => negb (row_id r =? deposit_id)) (rows t);
     sequence := sequence t |}.

(** Lines 99-104. *)
Definition delete_all_deposits (t : deposits_table) (user : string)
  : deposits_table :=
  {| rows := filter (fun r => negb (String.eqb (row_user r) user)) (rows t);
     sequence := sequence t |}.

(** [ORDER BY date] on a text column: rows with equal dates are kept in
    table order, which the engine does not promise; nothing below depends
    on the order of ties. *)
Fixpoint insert_by_date (r : deposit_row) (rs : list deposit_row)
  : list deposit_row :=
  match rs with
  | [] => [r]
  | r' :: rs' =>
      if String.ltb (row_date r) (row_date r')
      then r :: r' :: rs'
      else r' :: insert_by_date r rs'
  end.

Definition order_by_date (rs : list deposit_row) : list deposit_row :=
  fold_left (fun acc r => insert_by_date r acc) rs [].

(** [WHERE user = ?] *)
Definition where_user (user : string) (rs : list deposit_row) : list deposit_row :=
  filter (fun r => String.eqb (row_user r) user) rs.

(** The selected columns: [id, date, amount, is_total, current_total]. *)
Definition columns (r : deposit_row) : Z * string * R * Z * option R :=
  (row_id r, row_date r, row_amount r, row_is_total r, row_current_total r).

(** Lines 84-90. *)
Definition get_user_deposits (t : deposits_table) (user : string)
  : list (Z * string * R * Z * option R) :=
  map columns (order_by_date (where_user user (rows t))).

(** A table as the engine keeps it: ids are distinct and none is above
    the recorded sequence. *)
Definition table_ok (t : deposits_table) : Prop :=
  NoDup (map row_id (rows t))
  /\ Forall (fun r => row_id r <= sequence t) (rows t).

(** The date text of the first row is not after that of the second. *)
Definition date_leb (a b : deposit_row) : Prop :=
  String.leb (row_date a) (row_date b) = true.

(** Rows in ascending order of their date text. *)
Definition dates_ascending (rs : list (Z * string * R * Z * option R)) : Prop :=
  Sorted (fun a b => String.leb (snd (fst (fst (fst a)))) (snd (fst (fst (fst b)))) = true) rs.

End Store.

(** ** The calendar model: ordinals against year, month, day *)

Section CalendarFacts.
Import Calendar CalendarTables.
Local Open Scope Z_scope.

Lemma ord2ymd_in_year (n : Z) :
  _ord2ymd n =
  let n := n - 1 in
  let n400 := n / 146097 in
  let n := n mod 146097 in
  let n100 := n / 36524 in
  let n := n mod 36524 in
  let n4 := n / 1461 in
  let n := n mod 1461 in
  let n1 := n / 365 in
  let n := n mod 365 in
  let year := n400 * 400 + 1 + (n100 * 100 + n4 * 4 + n1) in
  if (n1 =? 4) || (n100 =? 4) then (year - 1, 12, 31)
  else (year, fst (in_year (leap_of n100 n4 n1) n), snd (in_year (leap_of n100 n4 n1) n)).
Proof.
  unfold _ord2ymd, in_year, leap_of, _DI400Y, _DI100Y, _DI4Y. cbv zeta.
  destruct ((_ =? 4) || (_ =? 4)); [reflexivity|].
  destruct (_ <? _); reflexivity.
Qed.

Lemma ord2ymd_digits (a b c e doy : Z) :
  0 <= b <= 3 -> 0 <= c <= 24 -> 0 <= e <= 3 ->
  0 <= doy <= 364 + (if leap_of b c e then 1 else 0) ->
  _ord2ymd (146097 * a + 36524 * b + 1461 * c + 365 * e + doy + 1)
  = if doy =? 365 then (400 * a + 100 * b + 4 * c + e + 1, 12, 31)
    else (400 * a + 100 * b + 4 * c + e + 1,
          fst (in_year (leap_of b c e) doy), snd (in_year (leap_of b c e) doy)).
Proof.
  intros Hb Hc He Hd.
  rewrite ord2ymd_in_year. cbv zeta.
  set (N := 146097 * a + 36524 * b + 1461 * c + 365 * e + doy + 1 - 1).
  assert (Hleap : leap_of b c e = true -> e = 3 /\ (c <> 24 \/ b = 3)).
  { unfold leap_of. intros H. apply andb_prop in H. destruct H as [H1 H2].
    apply Z.eqb_eq in H1. split; [exact H1|].
    apply orb_prop in H2. destruct H2 as [H2|H2].
    - left. apply negb_true_iff, Z.eqb_neq in H2. exact H2.
    - right. now apply Z.eqb_eq in H2. }
  assert (Hnl : leap_of b c e = false -> e <> 3 \/ (c = 24 /\ b <> 3)).
  { unfold leap_of. intros H. apply andb_false_iff in H. destruct H as [H|H].
    - left. now apply Z.eqb_neq in H.
    - right. apply orb_false_iff in H. destruct H as [H1 H2].
      apply negb_false_iff, Z.eqb_eq in H1. apply Z.eqb_neq in H2. auto. }
  assert (Hbound : 0 <= doy <= 365 /\ (doy = 365 -> e = 3 /\ (c <> 24 \/ b = 3))).
  { destruct (leap_of b c e); cbv iota in Hd;
      [split; [lia|intros _; now apply Hleap]|lia]. }
  assert (E1 : N / 146097 = a /\ N mod 146097 = 36524 * b + 1461 * c + 365 * e + doy).
  { unfold N. clear Hleap Hnl Hd. Z.div_mod_to_equations. lia. }
  destruct E1 as [E1 E1']. rewrite E1, E1'. clear E1 E1' N.
  destruct (Z.eqb_spec doy 365) as [Hdoy|Hdoy].
  - destruct (leap_of b c e) eqn:El; cbv iota in Hd; [|lia].
    destruct (Hleap eq_refl) as [-> Hcb].
    subst doy.
    destruct (Z.eq_dec b 3) as [->|Hb3]; [destruct (Z.eq_dec c 24) as [->|Hc24]|].
    + change (36524 * 3 + 1461 * 24 + 365 * 3 + 365) with 146096.
      change (146096 / 36524) with 4. change (146096 mod 36524) with 0.
      change (0 / 1461) with 0. change (0 mod 1461) with 0.
      change (0 / 365) with 0. change (4 =? 4) with true.
      rewrite orb_true_r. f_equal. f_equal. lia.
    + assert (E2 : (36524 * 3 + 1461 * c + 365 * 3 + 365) / 36524 = 3
               /\ (36524 * 3 + 1461 * c + 365 * 3 + 365) mod 36524 = 1461 * c + 1460)
        by (Z.div_mod_to_equations; lia).
      destruct E2 as [E2 E2']. rewrite E2, E2'.
      assert (E3 : (1461 * c + 1460) / 1461 = c /\ (1461 * c + 1460) mod 1461 = 1460)
        by (Z.div_mod_to_equations; lia).
      destruct E3 as [E3 E3']. rewrite E3, E3'.
      change (1460 / 365) with 4. change (4 =? 4) with true.
      cbn [orb]. f_equal. f_equal. lia.
    + assert (E2 : (36524 * b + 1461 * c + 365 * 3 + 365) / 36524 = b
               /\ (36524 * b + 1461 * c + 365 * 3 + 365) mod 36524 = 1461 * c + 1460)
        by (Z.div_mod_to_equations; lia).
      destruct E2 as [E2 E2']. rewrite E2, E2'.
      assert (E3 : (1461 * c + 1460) / 1461 = c /\ (1461 * c + 1460) mod 1461 = 1460)
        by (Z.div_mod_to_equations; lia).
      destruct E3 as [E3 E3']. rewrite E3, E3'.
      change (1460 / 365) with 4. change (4 =? 4) with true.
      cbn [orb]. f_equal. f_equal. lia.
  - assert (Hd' : 0 <= doy <= 364) by lia.
    assert (E2 : (36524 * b + 1461 * c + 365 * e + doy) / 36524 = b
               /\ (36524 * b + 1461 * c + 365 * e + doy) mod 36524
                  = 1461 * c + 365 * e + doy)
      by (Z.div_mod_to_equations; lia).
    destruct E2 as [E2 E2']. rewrite E2, E2'.
    assert (E3 : (1461 * c + 365 * e + doy) / 1461 = c
               /\ (1461 * c + 365 * e + doy) mod 1461 = 365 * e + doy)
      by (Z.div_mod_to_equations; lia).
    destruct E3 as [E3 E3']. rewrite E3, E3'.
    assert (E4 : (365 * e + doy) / 365 = e /\ (365 * e + doy) mod 365 = doy)
      by (Z.div_mod_to_equations; lia).
    destruct E4 as [E4 E4']. rewrite E4, E4'.
    replace (e =? 4) with false by (symmetry; apply Z.eqb_neq; lia).
    replace (b =? 4) with false by (symmetry; apply Z.eqb_neq; lia).
    cbn [orb]. f_equal. f_equal. lia.
Qed.

Lemma in_year_table_true : in_year_table = true.
Proof. vm_compute. reflexivity. Qed.

Lemma in_year_valid (leap : bool) (month day : Z) :
  1 <= month <= 12 -> 1 <= day <= days_in leap month ->
  in_year_ok leap month day = true.
Proof.
  intros Hm Hd.
  assert (Hd31 : day <= 31).
  { unfold days_in, table in Hd.
    destruct ((month =? 2) && leap); [lia|].
    assert (Hc : (Z.to_nat month = 1 \/ Z.to_nat month = 2 \/ Z.to_nat month = 3
            \/ Z.to_nat month = 4 \/ Z.to_nat month = 5 \/ Z.to_nat month = 6
            \/ Z.to_nat month = 7 \/ Z.to_nat month = 8 \/ Z.to_nat month = 9
            \/ Z.to_nat month = 10 \/ Z.to_nat month = 11 \/ Z.to_nat month = 12)%nat)
      by lia.
    repeat (destruct Hc as [Hc|Hc]; [rewrite Hc in Hd; cbn in Hd; lia|]).
    rewrite Hc in Hd; cbn in Hd; lia. }
  pose proof in_year_table_true as H. unfold in_year_table in H.
  rewrite forallb_forall in H.
  assert (Hl : In leap [false; true]) by (destruct leap; cbn; auto).
  specialize (H leap Hl). rewrite forallb_forall in H.
  assert (Hmi : In (Z.to_nat month) (seq 1 12)) by (apply in_seq; lia).
  specialize (H _ Hmi). rewrite forallb_forall in H.
  assert (Hdi : In (Z.to_nat day) (seq 1 31)) by (apply in_seq; lia).
  specialize (H _ Hdi).
  rewrite !Z2Nat.id in H by lia. exact H.
Qed.

Lemma year_digits (y : Z) :
  let a := (y - 1) / 400 in
  let b := (y - 1) mod 400 / 100 in
  let c := (y - 1) mod 100 / 4 in
  let e := (y - 1) mod 4 in
  (0 <= b <= 3 /\ 0 <= c <= 24 /\ 0 <= e <= 3)
  /\ y = 400 * a + 100 * b + 4 * c + e + 1
  /\ _days_before_year y = 146097 * a + 36524 * b + 1461 * c + 365 * e
  /\ _is_leap y = leap_of b c e.
Proof.
  intros a b c e.
  assert (Hb : 0 <= b <= 3 /\ 0 <= c <= 24 /\ 0 <= e <= 3
               /\ y = 400 * a + 100 * b + 4 * c + e + 1).
  { unfold a, b, c, e. Z.div_mod_to_equations. lia. }
  destruct Hb as (Hb & Hc & He & Hy).
  split; [auto|]. split; [exact Hy|]. split.
  - unfold _days_before_year. cbv zeta.
    replace (y - 1) with (400 * a + 100 * b + 4 * c + e) by lia.
    clear Hy. Z.div_mod_to_equations. lia.
  - unfold _is_leap, leap_of.
    assert (E4 : (y mod 4 =? 0) = (e =? 3)).
    { destruct (Z.eqb_spec e 3), (Z.eqb_spec (y mod 4) 0); try reflexivity;
        exfalso; Z.div_mod_to_equations; lia. }
    assert (E100 : (y mod 4 =? 0) && negb (y mod 100 =? 0)
                   = (e =? 3) && negb (c =? 24)).
    { rewrite E4.
      destruct (Z.eqb_spec e 3), (Z.eqb_spec c 24), (Z.eqb_spec (y mod 100) 0);
        try reflexivity; exfalso; Z.div_mod_to_equations; lia. }
    assert (E400 : (y mod 4 =? 0) && (y mod 400 =? 0)
                   = (e =? 3) && negb (negb (c =? 24) || negb (b =? 3))).
    { rewrite E4.
      destruct (Z.eqb_spec e 3), (Z.eqb_spec c 24), (Z.eqb_spec b 3),
        (Z.eqb_spec (y mod 400) 0);
        try reflexivity; exfalso; Z.div_mod_to_equations; lia. }
    rewrite !andb_orb_distrib_r, E100, E400.
    destruct (e =? 3), (c =? 24), (b =? 3); reflexivity.
Qed.

Theorem ord2ymd_ymd2ord (year month day : Z) :
  valid_date year month day ->
  _ord2ymd (_ymd2ord year month day) = (year, month, day).
Proof.
  intros [Hm Hd].
  change (_days_in_month year month) with (days_in (_is_leap year) month) in Hd.
  destruct (year_digits year) as ((Hb & Hc & He) & Hy & Hdby & Hleap).
  set (a := (year - 1) / 400) in *.
  set (b := (year - 1) mod 400 / 100) in *.
  set (c := (year - 1) mod 100 / 4) in *.
  set (e := (year - 1) mod 4) in *.
  pose proof (in_year_valid (_is_leap year) month day Hm Hd) as Hok.
  unfold in_year_ok in Hok.
  replace (day <=? days_in (_is_leap year) month) with true in Hok
    by (symmetry; apply Z.leb_le; lia).
  cbn [implb] in Hok. cbv zeta in Hok.
  apply andb_prop in Hok. destruct Hok as [Hr Hv].
  apply andb_prop in Hr. destruct Hr as [Hlo Hhi].
  apply Z.leb_le in Hlo, Hhi.
  set (doy := day_of_year (_is_leap year) month day) in *.
  assert (E : _ymd2ord year month day
              = 146097 * a + 36524 * b + 1461 * c + 365 * e + doy + 1).
  { unfold _ymd2ord, _days_before_month. rewrite Hdby.
    unfold doy, day_of_year. lia. }
  rewrite E, ord2ymd_digits; try assumption; [|rewrite <- Hleap; lia].
  rewrite <- Hleap, <- Hy.
  destruct (doy =? 365).
  - apply andb_prop in Hv. destruct Hv as [H1 H2].
    apply Z.eqb_eq in H1, H2. congruence.
  - apply andb_prop in Hv. destruct Hv as [H1 H2].
    apply Z.eqb_eq in H1, H2. congruence.
Qed.

Lemma months_table_true : months_table = true.
Proof. vm_compute. reflexivity. Qed.

Lemma day_of_year_months (leap : bool) (m1 m2 d1 d2 : Z) :
  1 <= m1 <= 12 -> 1 <= m2 <= 12 -> m1 < m2 ->
  d1 <= days_in leap m1 -> 1 <= d2 ->
  day_of_year leap m1 d1 < day_of_year leap m2 d2.
Proof.
  intros H1 H2 Hlt Hd1 Hd2.
  pose proof months_table_true as H. unfold months_table in H.
  rewrite forallb_forall in H.
  assert (Hl : In leap [false; true]) by (destruct leap; cbn; auto).
  specialize (H leap Hl). rewrite forallb_forall in H.
  assert (Hi1 : In (Z.to_nat m1) (seq 1 12)) by (apply in_seq; lia).
  specialize (H _ Hi1). rewrite forallb_forall in H.
  assert (Hi2 : In (Z.to_nat m2) (seq 1 12)) by (apply in_seq; lia).
  specialize (H _ Hi2). rewrite !Z2Nat.id in H by lia.
  unfold months_ok in H.
  replace (m1 <? m2) with true in H by (symmetry; apply Z.ltb_lt; lia).
  cbn [implb] in H. apply Z.ltb_lt in H.
  unfold day_of_year in *. lia.
Qed.

Lemma days_before_next_year (y : Z) :
  _days_before_year (y + 1)
  = _days_before_year y + 365 + (if _is_leap y then 1 else 0).
Proof.
  unfold _days_before_year, _is_leap. cbv zeta.
  replace (y + 1 - 1) with y by lia.
  destruct (Z.eqb_spec (y mod 4) 0), (Z.eqb_spec (y mod 100) 0),
    (Z.eqb_spec (y mod 400) 0); cbn [negb andb orb];
    Z.div_mod_to_equations; lia.
Qed.

Lemma days_before_year_mono (y1 y2 : Z) :
  y1 <= y2 -> _days_before_year y1 <= _days_before_year y2.
Proof.
  intros H. unfold _days_before_year. cbv zeta.
  Z.div_mod_to_equations. lia.
Qed.

Lemma ymd2ord_range (year month day : Z) :
  valid_date year month day ->
  _days_before_year year < _ymd2ord year month day
  <= _days_before_year (year + 1).
Proof.
  intros [Hm Hd].
  change (_days_in_month year month) with (days_in (_is_leap year) month) in Hd.
  pose proof (in_year_valid (_is_leap year) month day Hm Hd) as Hok.
  unfold in_year_ok in Hok.
  replace (day <=? days_in (_is_leap year) month) with true in Hok
    by (symmetry; apply Z.leb_le; lia).
  cbn [implb] in Hok. cbv zeta in Hok.
  apply andb_prop in Hok. destruct Hok as [Hr _].
  apply andb_prop in Hr. destruct Hr as [Hlo Hhi].
  apply Z.leb_le in Hlo, Hhi.
  rewrite days_before_next_year.
  unfold _ymd2ord, _days_before_month, day_of_year in *. lia.
Qed.

Lemma ymd2ord_lt (y1 m1 d1 y2 m2 d2 : Z) :
  valid_date y1 m1 d1 -> valid_date y2 m2 d2 ->
  ymd_lt y1 m1 d1 y2 m2 d2 ->
  _ymd2ord y1 m1 d1 < _ymd2ord y2 m2 d2.
Proof.
  intros V1 V2 [Hy|[-> [Hm|[-> Hd]]]].
  - pose proof (ymd2ord_range _ _ _ V1) as R1.
    pose proof (ymd2ord_range _ _ _ V2) as R2.
    pose proof (days_before_year_mono (y1 + 1) y2). lia.
  - destruct V1 as [Hm1 Hd1], V2 as [Hm2 Hd2].
    change (_days_in_month y2 m1) with (days_in (_is_leap y2) m1) in Hd1.
    pose proof (day_of_year_months (_is_leap y2) m1 m2 d1 d2).
    unfold _ymd2ord, _days_before_month, day_of_year in *. lia.
  - unfold _ymd2ord. lia.
Qed.

Theorem ymd2ord_order (y1 m1 d1 y2 m2 d2 : Z) :
  valid_date y1 m1 d1 -> valid_date y2 m2 d2 ->
  (_ymd2ord y1 m1 d1 <= _ymd2ord y2 m2 d2
   <-> ymd_lt y1 m1 d1 y2 m2 d2 \/ (y1, m1, d1) = (y2, m2, d2)).
Proof.
  intros V1 V2. split.
  - intros Hle.
    destruct (Z.lt_trichotomy y1 y2) as [Hy|[Hy|Hy]];
      [left; left; exact Hy| |].
    + subst y2.
      destruct (Z.lt_trichotomy m1 m2) as [Hm|[Hm|Hm]];
        [left; right; auto| |].
      * subst m2.
        destruct (Z.lt_trichotomy d1 d2) as [Hd|[Hd|Hd]];
          [left; right; auto|right; congruence|].
        assert (ymd_lt y1 m1 d2 y1 m1 d1) by (right; auto).
        pose proof (ymd2ord_lt _ _ _ _ _ _ V2 V1 H). lia.
      * assert (ymd_lt y1 m2 d2 y1 m1 d1) by (right; auto).
        pose proof (ymd2ord_lt _ _ _ _ _ _ V2 V1 H). lia.
    + assert (ymd_lt y2 m2 d2 y1 m1 d1) by (left; auto).
      pose proof (ymd2ord_lt _ _ _ _ _ _ V2 V1 H). lia.
  - intros [Hlt|E].
    + pose proof (ymd2ord_lt _ _ _ _ _ _ V1 V2 Hlt). lia.
    + injection E as -> -> ->. lia.
Qed.

Lemma year_mk_datetime (y m d : Z) :
  valid_date y m d -> year (mk_datetime y m d) = y.
Proof.
  intros V. unfold year, mk_datetime. now rewrite ord2ymd_ymd2ord.
Qed.

Lemma month_mk_datetime (y m d : Z) :
  valid_date y m d -> month (mk_datetime y m d) = m.
Proof.
  intros V. unfold month, mk_datetime. now rewrite ord2ymd_ymd2ord.
Qed.

(** The months between two dates, from their fields. *)
Lemma months_between_mk_datetime (y1 m1 d1 y2 m2 d2 : Z) :
  valid_date y1 m1 d1 -> valid_date y2 m2 d2 ->
  months_between (mk_datetime y1 m1 d1) (mk_datetime y2 m2 d2)
  = (y2 - y1) * 12 + (m2 - m1).
Proof.
  intros V1 V2. unfold months_between.
  now rewrite !year_mk_datetime, !month_mk_datetime.
Qed.

End CalendarFacts.

(** ** Checks of the calendar model *)

Section CalendarChecks.
Import Calendar.
Local Open Scope Z_scope.

Example ord_2024_01_31 : _ord2ymd (mk_datetime 2024 1 31) = (2024, 1, 31).
Proof. reflexivity. Qed.

Example ord_2024_02_29 : _ord2ymd (mk_datetime 2024 2 29) = (2024, 2, 29).
Proof. reflexivity. Qed.

Example ord_1900_03_01 :
  _ord2ymd (add_days (mk_datetime 1900 2 28) 1) = (1900, 3, 1).
Proof. reflexivity. Qed.

Example ord_2000_12_31 : _ord2ymd (mk_datetime 2000 12 31) = (2000, 12, 31).
Proof. reflexivity. Qed.

Example jan31_plus_30 :
  _ord2ymd (add_days (mk_datetime 2024 1 31) 30) = (2024, 3, 1).
Proof. reflexivity. Qed.

Example eleven_months :
  months_between (mk_datetime 2024 1 15) (mk_datetime 2024 12 15) = 11.
Proof. reflexivity. Qed.


End CalendarChecks.

(** ** The history loop in closed form *)

Section HistoryLoop.
Import Calendar Savings Reference.
Local Open Scope R_scope.

Variable monthly_rate : R.

Lemma range_seq (n : Z) : range n = map Z.of_nat (seq 0 (Z.to_nat n)).
Proof. reflexivity. Qed.

Lemma interpolation_fold (last : datetime) (n k : nat) (st : history) :
  fold_left (interpolation_step monthly_rate last) (map Z.of_nat (seq k n)) st
  = {| current_value := compound monthly_rate n (current_value st);
       last_date := last_date st;
       graph_dates := graph_dates st ++ synthetic_dates last k n;
       graph_values :=
         graph_values st ++ synthetic_values monthly_rate n (current_value st) |}.
Proof.
  revert k st.
  induction n as [|n IH]; intros k st.
  - destruct st; simpl. unfold synthetic_dates. simpl.
    now rewrite !app_nil_r.
  - cbn [seq map fold_left].
    rewrite IH.
    unfold synthetic_dates.
    cbn [interpolation_step current_value last_date graph_dates graph_values
         compound synthetic_values seq map].
    now rewrite <- !app_assoc.
Qed.

Lemma synthetic_dates_length (last : datetime) (k n : nat) :
  length (synthetic_dates last k n) = n.
Proof. unfold synthetic_dates. now rewrite length_map, length_seq. Qed.

Lemma synthetic_values_length (n : nat) (cv : R) :
  length (synthetic_values monthly_rate n cv) = n.
Proof.
  revert cv. induction n as [|n IH]; intros cv; simpl; auto.
Qed.

(** One turn of the outer loop once a record has been seen. *)
Lemma history_step_after (st : history) (last : datetime) (r : deposit) :
  last_date st = Some last ->
  let n := gap last (date r) in
  let cv := update_value (compound monthly_rate n (current_value st)) r in
  history_step monthly_rate st r
  = {| current_value := cv;
       last_date := Some (date r);
       graph_dates := (graph_dates st ++ synthetic_dates last 0 n) ++ [date r];
       graph_values :=
         (graph_values st ++ synthetic_values monthly_rate n (current_value st))
         ++ [cv] |}.
Proof.
  intros Hlast n cv.
  unfold history_step, interpolate.
  rewrite Hlast, range_seq, interpolation_fold.
  reflexivity.
Qed.

(** The first turn of the outer loop. *)
Lemma history_step_first (st : history) (r : deposit) :
  last_date st = None ->
  history_step monthly_rate st r
  = {| current_value := update_value (current_value st) r;
       last_date := Some (date r);
       graph_dates := graph_dates st ++ [date r];
       graph_values := graph_values st ++ [update_value (current_value st) r] |}.
Proof.
  intros Hlast. unfold history_step, interpolate. now rewrite Hlast.
Qed.

Lemma combine_snoc {A B : Type} (l : list A) (l' : list B) (a : A) (b : B) :
  length l = length l' ->
  combine (l ++ [a]) (l' ++ [b]) = combine l l' ++ [(a, b)].
Proof.
  revert l'. induction l as [|x l IH]; intros [|y l'] H; simpl in *;
    try discriminate; auto.
  f_equal. apply IH. congruence.
Qed.

Lemma combine_append {A B : Type} (l1 l2 : list A) (l1' l2' : list B) :
  length l1 = length l1' ->
  combine (l1 ++ l2) (l1' ++ l2') = combine l1 l1' ++ combine l2 l2'.
Proof.
  revert l1'. induction l1 as [|x l IH]; intros [|y l'] H; simpl in *;
    try discriminate; auto.
  f_equal. apply IH. congruence.
Qed.

(** The whole outer loop from a state that has seen a record. *)
Lemma history_fold_after (rs : list deposit) (st : history) (last : datetime) :
  last_date st = Some last ->
  length (graph_dates st) = length (graph_values st) ->
  let st' := fold_left (history_step monthly_rate) rs st in
  combine (graph_dates st') (graph_values st')
  = combine (graph_dates st) (graph_values st)
    ++ points_after monthly_rate (current_value st) last rs
  /\ length (graph_dates st') = length (graph_values st').
Proof.
  revert st last.
  induction rs as [|r rs IH]; intros st last Hlast Hlen; cbn [fold_left].
  - cbn [points_after]. now rewrite app_nil_r.
  - rewrite (history_step_after st last r Hlast).
    cbv zeta.
    match goal with |- context [fold_left _ rs ?s] => set (st1 := s) end.
    assert (Hlen1 : length (graph_dates st1) = length (graph_values st1)).
    { unfold st1; cbn [graph_dates graph_values].
      rewrite !length_app, synthetic_dates_length, synthetic_values_length.
      simpl. lia. }
    destruct (IH st1 (date r) eq_refl Hlen1) as [Hc Hl].
    split; [|exact Hl].
    rewrite Hc.
    unfold st1; cbn [graph_dates graph_values current_value points_after].
    rewrite combine_snoc.
    + rewrite combine_append by exact Hlen.
      rewrite <- !app_assoc. reflexivity.
    + rewrite !length_app, synthetic_dates_length, synthetic_values_length.
      lia.
Qed.

End HistoryLoop.

Section ReconstructShape.
Import Calendar Savings Reference.
Local Open Scope R_scope.

Lemma reconstruct_nil (g : R) : reconstruct [] g = [].
Proof. reflexivity. Qed.

(** The series of a non-empty history: the first record's point, then the
    points of the records after it. *)
Lemma reconstruct_cons (r : deposit) (rs : list deposit) (g : R) :
  reconstruct (r :: rs) g
  = (date r, update_value 0 r)
    :: points_after (monthly_rate_of g) (update_value 0 r) (date r) rs.
Proof.
  unfold reconstruct, run_history. cbn [fold_left].
  rewrite (history_step_first _ history_init r eq_refl).
  cbn [history_init current_value graph_dates graph_values app].
  match goal with |- context [fold_left _ rs ?s] => set (st1 := s) end.
  destruct (history_fold_after (monthly_rate_of g) rs st1 (date r) eq_refl eq_refl)
    as [Hc _].
  cbv zeta in Hc. rewrite Hc. reflexivity.
Qed.

End ReconstructShape.

(** ** What the history loop reads of a record *)

Section RecordFields.
Import Calendar Savings Reference.
Local Open Scope R_scope.

Lemma float_truthy_0 : float_truthy 0 = false.
Proof. unfold float_truthy. destruct (Req_dec_T 0 0); congruence. Qed.

Lemma float_truthy_nonzero (c : R) : c <> 0 -> float_truthy c = true.
Proof. intros H. unfold float_truthy. destruct (Req_dec_T c 0); congruence. Qed.

Lemma update_value_current_total (cv : R) (r : deposit) :
  current_total_rule r cv (update_value cv r).
Proof.
  unfold current_total_rule, update_value, truthy, float_truthy, the.
  destruct (current_total r) as [c|]; [destruct (Req_dec_T c 0)|]; reflexivity.
Qed.

Lemma history_step_without_flag (m : R) (st : history) (r : deposit) :
  history_step m st (without_flag r) = history_step m st r.
Proof. reflexivity. Qed.

Lemma fold_history_without_flag (m : R) (rs : list deposit) (st : history) :
  fold_left (history_step m) (map without_flag rs) st
  = fold_left (history_step m) rs st.
Proof.
  revert st. induction rs as [|r rs IH]; intros st; cbn [map fold_left].
  - reflexivity.
  - rewrite history_step_without_flag. apply IH.
Qed.

Lemma reconstruct_without_flag (rs : list deposit) (g : R) :
  reconstruct (map without_flag rs) g = reconstruct rs g.
Proof.
  unfold reconstruct, run_history. now rewrite fold_history_without_flag.
Qed.

Lemma history_step_falsy_total (m : R) (st : history) (r : deposit) :
  truthy (current_total r) = false ->
  history_step m st r = history_step m st (as_deposit r).
Proof.
  intros H. unfold history_step, update_value.
  rewrite H. reflexivity.
Qed.

Lemma run_history_snoc (g : R) (rs : list deposit) (r : deposit) :
  run_history g (rs ++ [r])
  = history_step (monthly_rate_of g) (run_history g rs) r.
Proof. unfold run_history. now rewrite fold_left_app. Qed.

Lemma reconstruct_falsy_total (g : R) (rs : list deposit) (r : deposit) :
  truthy (current_total r) = false ->
  reconstruct (rs ++ [r]) g = reconstruct (rs ++ [as_deposit r]) g.
Proof.
  intros H. unfold reconstruct.
  now rewrite !run_history_snoc, (history_step_falsy_total _ _ r H).
Qed.

(** What the loop state holds after any run. *)
Lemma run_history_invariant (g : R) (rs : list deposit) :
  let st := run_history g rs in
  length (graph_dates st) = length (graph_values st)
  /\ last (graph_values st) 0 = current_value st
  /\ last_date st = match rs with
                    | [] => None
                    | r :: rs' => Some (date (last rs' r))
                    end.
Proof.
  induction rs as [|r rs IH] using rev_ind.
  - cbn. auto.
  - cbv zeta in *. rewrite run_history_snoc.
    destruct IH as (Hlen & _ & Hlast).
    set (st := run_history g rs) in *.
    assert (Hd : match rs ++ [r] with
                 | [] => None
                 | r0 :: rs' => Some (date (last rs' r0))
                 end = Some (date r)).
    { destruct rs as [|r0 rs]; cbn [app]; [reflexivity|].
      f_equal. f_equal.
      change (last (rs ++ [r]) r0) with (last (rs ++ [r]) r0).
      now rewrite last_last. }
    rewrite Hd.
    destruct (last_date st) as [d|] eqn:E.
    + rewrite (history_step_after _ st d r E).
      cbn [graph_dates graph_values current_value last_date].
      rewrite !length_app, synthetic_dates_length, synthetic_values_length.
      rewrite last_last. cbn. repeat split; lia.
    + rewrite (history_step_first _ st r E).
      cbn [graph_dates graph_values current_value last_date].
      rewrite !length_app, last_last. cbn. repeat split; lia.
Qed.

Lemma map_snd_combine {A B : Type} (l : list A) (l' : list B) :
  length l = length l' -> map snd (combine l l') = l'.
Proof.
  revert l'. induction l as [|x l IH]; intros [|y l'] H; simpl in *;
    try discriminate; auto.
  f_equal. apply IH. congruence.
Qed.

Lemma map_fst_combine {A B : Type} (l : list A) (l' : list B) :
  length l = length l' -> map fst (combine l l') = l.
Proof.
  revert l'. induction l as [|x l IH]; intros [|y l'] H; simpl in *;
    try discriminate; auto.
  f_equal. apply IH. congruence.
Qed.

Lemma final_value_reconstruct (g : R) (rs : list deposit) :
  final_value (reconstruct rs g) = current_value (run_history g rs).
Proof.
  destruct (run_history_invariant g rs) as (Hlen & Hlast & _).
  unfold final_value, reconstruct.
  now rewrite map_snd_combine.
Qed.

Lemma balance_before_compound (g : R) (rs : list deposit) (r : deposit) :
  balance_before g rs r
  = match rs with
    | [] => 0
    | r0 :: rs' =>
        compound (monthly_rate_of g) (gap (date (last rs' r0)) (date r))
          (final_value (reconstruct rs g))
    end.
Proof.
  unfold balance_before, interpolate.
  destruct (run_history_invariant g rs) as (_ & _ & Hd).
  cbv zeta in Hd. rewrite Hd, final_value_reconstruct.
  destruct rs as [|r0 rs']; [reflexivity|].
  rewrite range_seq, interpolation_fold. reflexivity.
Qed.

Lemma balance_after_update (g : R) (rs : list deposit) (r : deposit) :
  balance_after g rs r = update_value (balance_before g rs r) r.
Proof.
  unfold balance_after, balance_before. rewrite run_history_snoc.
  reflexivity.
Qed.

End RecordFields.

(** ** The update of the running balance *)

Section BalanceUpdate.
Import Calendar Savings Reference.
Local Open Scope R_scope.

(** Rows that the form never writes (lines 212-214 flag a row exactly
    when it carries a total above 0) show that the loop itself looks at
    [current_total]: on an empty history, a row not flagged [is_total]
    that carries [current_total = 500] sets the balance to 500, and a row
    flagged [is_total] whose [current_total] is 0 adds its amount 50. *)
Lemma is_total_rule_refuted :
  let d := mk_datetime 2024 1 15 in
  let r1 := mk_deposit d 50 false (Some 500) in
  let r2 := mk_deposit d 50 true (Some 0) in
  (balance_after growth_rate [] r1 = 500
   /\ ~ is_total_rule r1 (balance_before growth_rate [] r1)
          (balance_after growth_rate [] r1))
  /\ (balance_after growth_rate [] r2 = 50
      /\ ~ is_total_rule r2 (balance_before growth_rate [] r2)
             (balance_after growth_rate [] r2)).
Proof.
  intros d r1 r2.
  assert (H1 : balance_after growth_rate [] r1 = 500).
  { rewrite balance_after_update. unfold update_value, r1.
    cbn [current_total truthy the].
    rewrite float_truthy_nonzero by lra. reflexivity. }
  assert (H2 : balance_after growth_rate [] r2 = 50).
  { rewrite balance_after_update. unfold update_value, r2.
    cbn [current_total truthy the amount].
    rewrite float_truthy_0.
    change (balance_before growth_rate [] (mk_deposit d 50 true (Some 0)))
      with 0.
    lra. }
  split; (split; [assumption|]).
  - rewrite H1. change (balance_before growth_rate [] r1) with 0.
    unfold is_total_rule, r1; cbn [is_total amount]. lra.
  - rewrite H2. unfold is_total_rule, r2; cbn [is_total current_total].
    intros E. injection E as E. lra.
Qed.

(** Whatever the fields of a record, the running balance is updated by
    looking at [current_total] only: when it is present and not zero the
    balance becomes [current_total], otherwise [amount] is added.  The
    balance before the update is the last emitted value compounded over
    the months of the gap (0 on an empty history), and the balance after
    it is the value of the point emitted for the record. *)
Lemma reconstruct_update_rule (g : R) (rs : list deposit) (r : deposit) :
  current_total_rule r (balance_before g rs r) (balance_after g rs r)
  /\ final_value (reconstruct (rs ++ [r]) g) = balance_after g rs r
  /\ balance_before g rs r
     = match rs with
       | [] => 0
       | r0 :: rs' =>
           compound (monthly_rate_of g) (gap (date (last rs' r0)) (date r))
             (final_value (reconstruct rs g))
       end.
Proof.
  split; [|split].
  - rewrite balance_after_update. apply update_value_current_total.
  - apply final_value_reconstruct.
  - apply balance_before_compound.
Qed.

(** C8: for every single record and every annual growth rate, [reconstruct]
    returns exactly one point, dated at the record's date; no synthetic
    point is emitted.  Its value is the balance 0 updated by the record. *)
Theorem reconstruct_single_record (r : deposit) (g : R) :
  reconstruct [r] g = [(date r, update_value 0 r)]
  /\ length (reconstruct [r] g) = 1%nat
  /\ map fst (reconstruct [r] g) = [date r].
Proof.
  rewrite reconstruct_cons. cbn [points_after]. auto.
Qed.

(** C9: [reconstruct] does not depend on [is_total]: two record lists that
    agree on dates, amounts and [current_total] give the same series.  In
    particular a record flagged [is_total] whose [current_total] is absent
    or 0 gives the same series as a plain deposit of its amount. *)
Theorem reconstruct_ignores_is_total (rs1 rs2 : list deposit) (g : R) :
  map without_flag rs1 = map without_flag rs2 ->
  reconstruct rs1 g = reconstruct rs2 g
  /\ (forall (rs : list deposit) (d : datetime) (a : R),
        reconstruct (rs ++ [mk_deposit d a true None]) g
        = reconstruct (rs ++ [mk_deposit d a false None]) g
        /\ reconstruct (rs ++ [mk_deposit d a true (Some 0)]) g
           = reconstruct (rs ++ [mk_deposit d a false None]) g).
Proof.
  intros H. split.
  - rewrite <- (reconstruct_without_flag rs1), <- (reconstruct_without_flag rs2).
    now rewrite H.
  - intros rs d a. split.
    + now rewrite (reconstruct_falsy_total g rs (mk_deposit d a true None)).
    + rewrite (reconstruct_falsy_total g rs (mk_deposit d a true (Some 0))).
      * reflexivity.
      * cbn [current_total truthy]. apply float_truthy_0.
Qed.

Lemma reconstruct_ignores_is_total_witness :
  let d := mk_datetime 2024 1 15 in
  let rs1 := [mk_deposit d 100 true (Some 500); mk_deposit (add_days d 40) 50 false None] in
  let rs2 := [mk_deposit d 100 false (Some 500); mk_deposit (add_days d 40) 50 true None] in
  map without_flag rs1 = map without_flag rs2
  /\ reconstruct rs1 growth_rate = reconstruct rs2 growth_rate.
Proof.
  intros d rs1 rs2.
  split; [reflexivity|].
  apply (reconstruct_ignores_is_total rs1 rs2 growth_rate). reflexivity.
Defined.

End BalanceUpdate.

(** ** Two deposits and no growth *)

Section FlatHistory.
Import Calendar Savings Reference.
Local Open Scope R_scope.

Lemma Rpower_1_l (y : R) : Rpower 1 y = 1.
Proof. unfold Rpower. now rewrite ln_1, Rmult_0_r, exp_0. Qed.

Lemma float_pow_positive (x y : R) : 0 < x -> float_pow x y = Rpower x y.
Proof.
  intros Hx. unfold float_pow. destruct (Req_dec_T x 0); [lra|reflexivity].
Qed.

Lemma monthly_rate_of_0 : monthly_rate_of 0 = 0.
Proof.
  unfold monthly_rate_of. rewrite float_pow_positive by lra.
  rewrite Rplus_0_r, Rpower_1_l. lra.
Qed.

Lemma compute_growth_monthly_1 (cv m : R) :
  compute_growth_monthly cv 1 m = cv * (1 + m).
Proof. unfold compute_growth_monthly. simpl. lra. Qed.

Lemma synthetic_values_flat (n : nat) (cv : R) :
  synthetic_values 0 n cv = repeat cv n.
Proof.
  induction n as [|n IH]; cbn [synthetic_values repeat]; [reflexivity|].
  rewrite compute_growth_monthly_1.
  replace (cv * (1 + 0)) with cv by lra.
  now rewrite IH.
Qed.

Lemma compound_flat (n : nat) (cv : R) : compound 0 n cv = cv.
Proof.
  induction n as [|n IH]; cbn [compound]; [reflexivity|].
  rewrite compute_growth_monthly_1.
  replace (cv * (1 + 0)) with cv by lra.
  exact IH.
Qed.

Lemma update_value_deposit (cv a : R) (d : datetime) (f : bool) :
  update_value cv (mk_deposit d a f None) = cv + a.
Proof. reflexivity. Qed.

(** Two plain deposits at rate 0: the first point, a flat run of synthetic
    points, the step. *)
Lemma two_deposits_no_growth (d1 d2 : datetime) (a1 a2 : R) :
  reconstruct [mk_deposit d1 a1 false None; mk_deposit d2 a2 false None] 0
  = (d1, a1)
    :: combine (synthetic_dates d1 0 (gap d1 d2)) (repeat a1 (gap d1 d2))
    ++ [(d2, a1 + a2)].
Proof.
  rewrite reconstruct_cons.
  cbn [points_after date].
  rewrite !update_value_deposit, monthly_rate_of_0.
  rewrite compound_flat, synthetic_values_flat.
  now rewrite Rplus_0_l.
Qed.

(** C2, as stated, fails.  For deposits of 100 on 2024-01-15 and 50 on
    2024-12-15, eleven calendar months apart, the series at rate 0 has 13
    points: the first record's point, 11 synthetic points and the final
    point; it does not end with 10 synthetic points and the final point. *)
Lemma ten_synthetic_points_refuted :
  let d1 := mk_datetime 2024 1 15 in
  let d2 := mk_datetime 2024 12 15 in
  let out :=
    reconstruct [mk_deposit d1 100 false None; mk_deposit d2 50 false None] 0 in
  months_between d1 d2 = 11%Z
  /\ length out = 13%nat
  /\ ~ flat_then_step 10 100 d2 150 out.
Proof.
  intros d1 d2 out.
  assert (Hlen : length out = 13%nat).
  { unfold out. rewrite two_deposits_no_growth.
    cbn [length]. rewrite length_app, length_combine, synthetic_dates_length,
      repeat_length.
    reflexivity. }
  split; [reflexivity|]. split; [exact Hlen|].
  intros (first & syn & E & Hf & Hs & _).
  rewrite E, !length_app, Hs in Hlen. cbn [length] in Hlen. lia.
Qed.

(** C2, amended: [reconstruct] applied to exactly two non-total records
    with amounts 100 then 50, dated eleven calendar months apart, with
    annual growth rate 0, gives the first record's point of value 100, then
    11 synthetic points of value 100, dated 30, 60, ..., 330 days after the
    first record, then a final point of value 150 at the second record's
    date; the values never decrease. *)
Theorem reconstruct_eleven_months (d1 d2 : datetime) :
  months_between d1 d2 = 11%Z ->
  let out :=
    reconstruct [mk_deposit d1 100 false None; mk_deposit d2 50 false None] 0 in
  out = (d1, 100)
        :: map (fun k : Z => (add_days d1 (30 * k), 100))
             [1; 2; 3; 4; 5; 6; 7; 8; 9; 10; 11]%Z
        ++ [(d2, 150)]
  /\ flat_then_step 11 100 d2 150 out
  /\ non_decreasing (map snd out).
Proof.
  intros H out.
  assert (E : out = (d1, 100)
        :: map (fun k : Z => (add_days d1 (30 * k), 100))
             [1; 2; 3; 4; 5; 6; 7; 8; 9; 10; 11]%Z
        ++ [(d2, 150)]).
  { unfold out. rewrite two_deposits_no_growth.
    unfold gap. rewrite H.
    replace (100 + 50) with 150 by lra.
    reflexivity. }
  split; [exact E|]. split.
  - exists [(d1, 100)],
      (map (fun k : Z => (add_days d1 (30 * k), 100))
         [1; 2; 3; 4; 5; 6; 7; 8; 9; 10; 11]%Z).
    split; [exact E|]. split; [cbn; lia|]. split; [reflexivity|].
    cbn [map]. repeat constructor.
  - rewrite E. cbn [map app fst snd]. unfold non_decreasing.
    repeat first [apply SSorted_nil | apply SSorted_cons
                 | apply Forall_nil | apply Forall_cons]; lra.
Qed.

Lemma reconstruct_eleven_months_witness :
  let d1 := mk_datetime 2024 1 15 in
  let d2 := mk_datetime 2024 12 15 in
  months_between d1 d2 = 11%Z
  /\ non_decreasing
       (map snd
          (reconstruct
             [mk_deposit d1 100 false None; mk_deposit d2 50 false None] 0)).
Proof.
  intros d1 d2. split; [reflexivity|].
  apply (reconstruct_eleven_months d1 d2). reflexivity.
Defined.

End FlatHistory.

(** ** The dates of the series *)

Section SeriesDates.
Import Calendar Savings Reference.
Local Open Scope Z_scope.

Lemma points_after_dates (m cv : R) (last : datetime) (rs : list deposit) :
  map fst (points_after m cv last rs) = dates_after last (map date rs).
Proof.
  revert cv last. induction rs as [|r rs IH]; intros cv last;
    cbn [points_after dates_after map]; [reflexivity|].
  rewrite map_app. cbn [map fst]. rewrite IH.
  rewrite map_fst_combine; [reflexivity|].
  now rewrite synthetic_dates_length, synthetic_values_length.
Qed.

Lemma reconstruct_dates (r : deposit) (rs : list deposit) (g : R) :
  map fst (reconstruct (r :: rs) g)
  = date r :: dates_after (date r) (map date rs).
Proof. rewrite reconstruct_cons. cbn [map fst]. now rewrite points_after_dates. Qed.

Lemma StronglySorted_append {A : Type} (le : A -> A -> Prop) (l1 l2 : list A) :
  StronglySorted le l1 -> StronglySorted le l2 ->
  (forall x y, In x l1 -> In y l2 -> le x y) ->
  StronglySorted le (l1 ++ l2).
Proof.
  induction l1 as [|a l1 IH]; intros H1 H2 Hc; cbn [app]; [exact H2|].
  inversion H1 as [|a' l' Hs Hf]; subst.
  constructor.
  - apply IH; auto. intros x y Hx Hy. apply Hc; [now right|exact Hy].
  - apply Forall_app. split; [exact Hf|].
    apply Forall_forall. intros y Hy. apply Hc; [now left|exact Hy].
Qed.

Lemma synthetic_dates_in (last x : datetime) (k n : nat) :
  In x (synthetic_dates last k n) ->
  exists i : nat, (k <= i < k + n)%nat /\ x = last + 30 * (Z.of_nat i + 1).
Proof.
  unfold synthetic_dates, add_days. rewrite in_map_iff.
  intros (i & E & Hi). apply in_seq in Hi. exists i. split; [lia|now symmetry].
Qed.

Lemma synthetic_dates_sorted (last : datetime) (n k : nat) :
  StronglySorted date_le (synthetic_dates last k n).
Proof.
  revert k. induction n as [|n IH]; intros k.
  - constructor.
  - change (synthetic_dates last k (S n))
      with (add_days last (30 * (Z.of_nat k + 1)) :: synthetic_dates last (S k) n).
    constructor; [apply IH|].
    apply Forall_forall. intros x Hx.
    apply synthetic_dates_in in Hx. destruct Hx as (i & Hi & ->).
    unfold date_le, add_days. lia.
Qed.

(** Sorted records whose synthetic runs fit in their gaps give dates in
    order, none before the previous record. *)
Lemma dates_after_chronological (rs : list deposit) (last : datetime) :
  StronglySorted date_le (last :: map date rs) ->
  gaps_fit last rs ->
  StronglySorted date_le (dates_after last (map date rs))
  /\ Forall (date_le last) (dates_after last (map date rs)).
Proof.
  revert last. induction rs as [|r rs IH]; intros last Hs Hg;
    cbn [map dates_after].
  - split; constructor.
  - inversion Hs as [|a l Hs' Hf]; subst.
    destruct Hg as [Hfit Hg].
    destruct (IH (date r) Hs' Hg) as [IHs IHf].
    inversion Hf as [|a l Hle Hf']; subst.
    assert (Hcross : forall x, In x (synthetic_dates last 0 (gap last (date r))) ->
                     date_le last x /\ date_le x (date r)).
    { intros x Hx. apply synthetic_dates_in in Hx.
      destruct Hx as (i & Hi & ->).
      assert (Hn : gap last (date r) <> O) by lia.
      specialize (Hfit Hn). unfold date_le, add_days in *. lia. }
    split.
    + apply StronglySorted_append.
      * apply synthetic_dates_sorted.
      * constructor; assumption.
      * intros x y Hx Hy. destruct (Hcross x Hx) as [_ Hxr].
        destruct Hy as [<-|Hy]; [exact Hxr|].
        rewrite Forall_forall in IHf. specialize (IHf y Hy).
        unfold date_le in *. lia.
    + apply Forall_app. split.
      * apply Forall_forall. intros x Hx. now apply Hcross.
      * constructor; [exact Hle|].
        apply Forall_forall. intros y Hy.
        rewrite Forall_forall in IHf. specialize (IHf y Hy).
        unfold date_le in *. lia.
Qed.

(** The records dated 2024-01-31 and 2024-02-01 are in ascending order
    and one calendar month apart; the synthetic point is dated 30 days
    after the first, 2024-03-01, and is emitted before the point of
    2024-02-01. *)
Lemma chronological_refuted :
  let d1 := mk_datetime 2024 1 31 in
  let d2 := mk_datetime 2024 2 1 in
  let rs := [mk_deposit d1 100 false None; mk_deposit d2 50 false None] in
  sorted_by_date rs
  /\ map fst (reconstruct rs growth_rate) = [d1; mk_datetime 2024 3 1; d2]
  /\ ~ chronological (reconstruct rs growth_rate).
Proof.
  intros d1 d2 rs.
  assert (E : map fst (reconstruct rs growth_rate) = [d1; mk_datetime 2024 3 1; d2]).
  { unfold rs. rewrite reconstruct_dates. reflexivity. }
  split; [|split; [exact E|]].
  - unfold sorted_by_date, rs, date_le. cbn [map date].
    repeat constructor. vm_compute. discriminate.
  - unfold chronological. rewrite E. intros H.
    inversion H as [|a l Hs _]; subst.
    inversion Hs as [|a l _ Hf]; subst.
    inversion Hf as [|a l Hle _]; subst.
    vm_compute in Hle. apply Hle. reflexivity.
Qed.

(** Where every run of synthetic points fits in its gap (the last of
    the [k] synthetic points after a record, dated [30*k] days after it,
    is not later than the next record), sorted records give a series
    whose dates never decrease. *)
Lemma reconstruct_chronological (rs : list deposit) (g : R) :
  sorted_by_date rs ->
  all_gaps_fit rs ->
  chronological (reconstruct rs g).
Proof.
  unfold sorted_by_date, chronological.
  destruct rs as [|r rs]; intros Hs Hg.
  - rewrite reconstruct_nil. constructor.
  - rewrite reconstruct_dates.
    destruct (dates_after_chronological rs (date r) Hs Hg) as [H1 H2].
    constructor; assumption.
Qed.

Lemma reconstruct_chronological_witness :
  let rs := [mk_deposit (mk_datetime 2024 1 15) 100 false None;
             mk_deposit (mk_datetime 2024 3 20) 50 false None;
             mk_deposit (mk_datetime 2024 3 25) 0 true (Some 500%R)] in
  sorted_by_date rs /\ all_gaps_fit rs
  /\ chronological (reconstruct rs growth_rate).
Proof.
  intros rs.
  assert (Hs : sorted_by_date rs).
  { unfold sorted_by_date, rs, date_le. cbn [map date].
    repeat constructor; vm_compute; discriminate. }
  assert (Hg : all_gaps_fit rs).
  { unfold rs. cbn [all_gaps_fit gaps_fit date]. unfold date_le.
    repeat split; intros _; vm_compute; discriminate. }
  split; [exact Hs|]. split; [exact Hg|].
  apply (reconstruct_chronological rs growth_rate Hs Hg).
Defined.

(** C6: the series is not always in chronological order.  Two ordinary
    monthly deposits, on 2024-02-15 and 2024-03-15, are sorted by date and
    one calendar month apart; the loop emits the dates 2024-02-15, then
    the synthetic 2024-03-16 (30 days on), then 2024-03-15: the chart
    steps back by a day. *)
Lemma reconstruct_out_of_order :
  let d1 := mk_datetime 2024 2 15 in
  let d2 := mk_datetime 2024 3 15 in
  let rs := [mk_deposit d1 100 false None; mk_deposit d2 100 false None] in
  sorted_by_date rs
  /\ months_between d1 d2 = 1%Z
  /\ map fst (reconstruct rs growth_rate) = [d1; mk_datetime 2024 3 16; d2]
  /\ ~ chronological (reconstruct rs growth_rate).
Proof.
  intros d1 d2 rs.
  assert (E : map fst (reconstruct rs growth_rate)
              = [d1; mk_datetime 2024 3 16; d2]).
  { unfold rs. rewrite reconstruct_dates. reflexivity. }
  split; [|split; [reflexivity|split; [exact E|]]].
  - unfold sorted_by_date, rs, date_le. cbn [map date].
    repeat constructor. vm_compute. discriminate.
  - unfold chronological. rewrite E. intros H.
    inversion H as [|a l Hs _]; subst.
    inversion Hs as [|a l _ Hf]; subst.
    inversion Hf as [|a l Hle _]; subst.
    vm_compute in Hle. apply Hle. reflexivity.
Qed.

End SeriesDates.

(** ** The forecast loop *)

Section ForecastLoop.
Import Calendar Savings Reference.
Local Open Scope R_scope.

Variables monthly_rate monthly : R.

Lemma forecast_value_shift (v : R) (n : nat) :
  forecast_value monthly_rate monthly (v * (1 + monthly_rate) + monthly) n
  = forecast_value monthly_rate monthly v (S n).
Proof.
  induction n as [|n IH]; [reflexivity|].
  cbn [forecast_value] in *. now rewrite IH.
Qed.

Lemma growth_fold (n k : nat) (st : growth_state) :
  fold_left (growth_step monthly_rate monthly) (map Z.of_nat (seq k n)) st
  = {| value := forecast_value monthly_rate monthly (value st) n;
       amounts :=
         amounts st
         ++ map (fun i => forecast_value monthly_rate monthly (value st) (S i))
              (seq 0 n) |}.
Proof.
  revert k st. induction n as [|n IH]; intros k st.
  - destruct st; cbn. now rewrite app_nil_r.
  - cbn [seq map fold_left]. rewrite IH.
    cbn [growth_step value amounts].
    rewrite forecast_value_shift, <- app_assoc.
    f_equal. f_equal. cbn [app]. f_equal.
    rewrite <- seq_shift, map_map.
    apply map_ext. intros i. apply forecast_value_shift.
Qed.

End ForecastLoop.

Section Forecast.
Import Calendar Savings Reference.
Local Open Scope R_scope.

(** The forecast, month by month. *)
Lemma compute_growth_values (initial monthly : R) (years : Z) (annual_rate : R) :
  compute_growth initial monthly years annual_rate
  = map (fun i => forecast_value (monthly_rate_of annual_rate) monthly initial (S i))
      (seq 0 (Z.to_nat (years * 12))).
Proof.
  unfold compute_growth. rewrite range_seq, growth_fold. reflexivity.
Qed.

Lemma compute_growth_length (initial monthly : R) (years : Z) (annual_rate : R) :
  length (compute_growth initial monthly years annual_rate)
  = Z.to_nat (years * 12).
Proof. now rewrite compute_growth_values, length_map, length_seq. Qed.

Lemma compute_growth_nth (initial monthly : R) (years : Z) (annual_rate : R)
  (i : nat) :
  (i < Z.to_nat (years * 12))%nat ->
  nth i (compute_growth initial monthly years annual_rate) 0
  = forecast_value (monthly_rate_of annual_rate) monthly initial (S i).
Proof.
  intros Hi. rewrite compute_growth_values.
  set (f := fun i => forecast_value (monthly_rate_of annual_rate) monthly initial (S i)).
  rewrite (nth_indep _ 0 (f O)) by now rewrite length_map, length_seq.
  rewrite map_nth, seq_nth by exact Hi. reflexivity.
Qed.

Lemma month_value_forecast (initial monthly : R) (years : Z) (annual_rate : R)
  (i : nat) :
  (i <= Z.to_nat (years * 12))%nat ->
  month_value initial (compute_growth initial monthly years annual_rate) i
  = forecast_value (monthly_rate_of annual_rate) monthly initial i.
Proof.
  destruct i as [|i]; intros Hi; [reflexivity|].
  cbn [month_value]. apply compute_growth_nth. lia.
Qed.

(** C3: for every initial value, monthly contribution, integer
    [years >= 1] and annual rate >= -1, [compute_growth] returns exactly
    [years * 12] values; with month 0 standing for the initial value, the
    value of month [i], for [i] from 1 to [years * 12], is the value of
    month [i - 1] times [1 + monthly_rate] plus the contribution, growth
    first, where [monthly_rate] is [(1 + annual_rate) ** (1/12) - 1]: the
    real 12th root above -1, and [0.0 ** (1/12) - 1 = -1] at -1.  The
    initial value itself is not in the output, whose first element is
    already one month on.  (Below -1 the power is a complex number.) *)
Theorem compute_growth_recurrence
  (initial monthly : R) (years : Z) (annual_rate monthly_rate : R) :
  (1 <= years)%Z ->
  (-1 < annual_rate /\ monthly_rate = Rpower (1 + annual_rate) (1 / 12) - 1)
  \/ (annual_rate = -1 /\ monthly_rate = -1) ->
  let out := compute_growth initial monthly years annual_rate in
  Z.of_nat (length out) = (years * 12)%Z
  /\ (forall i : nat,
        (1 <= i <= length out)%nat ->
        month_value initial out i
        = month_value initial out (i - 1) * (1 + monthly_rate) + monthly)
  /\ hd 0 out = initial * (1 + monthly_rate) + monthly.
Proof.
  intros Hy Hrate out.
  assert (Em : monthly_rate = monthly_rate_of annual_rate).
  { unfold monthly_rate_of, float_pow.
    destruct Hrate as [[Hr ->]|[-> ->]].
    - destruct (Req_dec_T (1 + annual_rate) 0); [lra|reflexivity].
    - destruct (Req_dec_T (1 + -1) 0) as [_|H]; [|lra].
      destruct (Req_dec_T (1 / 12) 0); lra. }
  rewrite Em. clear Em Hrate.
  assert (Hlen : length out = Z.to_nat (years * 12))
    by apply compute_growth_length.
  split; [lia|]. split.
  - intros i Hi. unfold out.
    rewrite !month_value_forecast by lia.
    destruct i as [|i]; [lia|].
    replace (S i - 1)%nat with i by lia. reflexivity.
  - assert (H0 : (0 < Z.to_nat (years * 12))%nat) by lia.
    pose proof (compute_growth_nth initial monthly years annual_rate 0 H0) as E.
    fold out in E. destruct out as [|x out']; [cbn in Hlen; lia|].
    cbn [hd]. cbn [nth] in E. rewrite E. reflexivity.
Qed.

Lemma compute_growth_recurrence_witness :
  let out := compute_growth 1000 100 1 (4 / 100) in
  let monthly_rate := Rpower (1 + 4 / 100) (1 / 12) - 1 in
  ((1 <= 1)%Z
   /\ Z.of_nat (length out) = 12%Z
   /\ hd 0 out = 1000 * (1 + monthly_rate) + 100)
  /\ hd 0 (compute_growth 1000 100 1 (-1)) = 1000 * (1 + -1) + 100.
Proof.
  intros out monthly_rate. split.
  - split; [lia|].
    destruct (compute_growth_recurrence 1000 100 1 (4 / 100) monthly_rate)
      as (H1 & _ & H3); [lia|left; split; [lra|reflexivity]|].
    split; [exact H1|exact H3].
  - destruct (compute_growth_recurrence 1000 100 1 (-1) (-1))
      as (_ & _ & H3); [lia|right; split; reflexivity|].
    exact H3.
Defined.

End Forecast.

(** ** The monthly rate *)

Section MonthlyRate.
Import Calendar Savings Reference.
Local Open Scope R_scope.

Lemma monthly_rate_of_above (r : R) :
  -1 < r -> monthly_rate_of r = Rpower (1 + r) (1 / 12) - 1.
Proof.
  intros Hr. unfold monthly_rate_of. now rewrite float_pow_positive by lra.
Qed.

Lemma monthly_rate_of_minus_1 : monthly_rate_of (-1) = -1.
Proof.
  unfold monthly_rate_of, float_pow.
  destruct (Req_dec_T (1 + -1) 0) as [_|H]; [|lra].
  destruct (Req_dec_T (1 / 12) 0); lra.
Qed.

Lemma one_plus_monthly_rate_pos (r : R) : -1 < r -> 0 < 1 + monthly_rate_of r.
Proof.
  intros Hr. rewrite monthly_rate_of_above by exact Hr.
  replace (1 + (Rpower (1 + r) (1 / 12) - 1)) with (Rpower (1 + r) (1 / 12))
    by lra.
  apply exp_pos.
Qed.

Lemma monthly_rate_monotone (r1 r2 : R) :
  -1 < r1 -> r1 <= r2 -> monthly_rate_of r1 <= monthly_rate_of r2.
Proof.
  intros H1 H2. rewrite !monthly_rate_of_above by lra.
  assert (Rpower (1 + r1) (1 / 12) <= Rpower (1 + r2) (1 / 12)).
  { apply Rle_Rpower_l; lra. }
  lra.
Qed.

Lemma monthly_rate_nonneg (r : R) : 0 <= r -> 0 <= monthly_rate_of r.
Proof.
  intros Hr. rewrite <- monthly_rate_of_0.
  apply monthly_rate_monotone; lra.
Qed.

End MonthlyRate.

(** ** Growth of the forecast *)

Section ForecastGrowth.
Import Calendar Savings Reference.
Local Open Scope R_scope.

Lemma forecast_value_nonneg (m c initial : R) (i : nat) :
  0 <= 1 + m -> 0 <= initial -> 0 <= c ->
  0 <= forecast_value m c initial i.
Proof.
  intros Hm Hi Hc. induction i as [|i IH]; cbn [forecast_value]; [lra|nra].
Qed.

Lemma forecast_value_zero (m : R) (i : nat) : forecast_value m 0 0 i = 0.
Proof.
  induction i as [|i IH]; cbn [forecast_value]; [reflexivity|].
  rewrite IH. ring.
Qed.

(** C7, as stated, fails.  With initial value 0 and monthly contribution 0
    at the annual rate 5%, for one year, every forecast value is 0: the
    second value is not above the first. *)
Lemma strictly_increasing_refuted :
  0 < 5 / 100 /\ 0 <= 0 /\ (1 <= 1)%Z
  /\ nth 0 (compute_growth 0 0 1 (5 / 100)) 0 = 0
  /\ nth 1 (compute_growth 0 0 1 (5 / 100)) 0 = 0
  /\ ~ strictly_increasing (compute_growth 0 0 1 (5 / 100)).
Proof.
  assert (H0 : nth 0 (compute_growth 0 0 1 (5 / 100)) 0 = 0).
  { rewrite compute_growth_nth by (cbn; lia). apply forecast_value_zero. }
  assert (H1 : nth 1 (compute_growth 0 0 1 (5 / 100)) 0 = 0).
  { rewrite compute_growth_nth by (cbn; lia). apply forecast_value_zero. }
  repeat split; try lra; try lia; try assumption.
  intros H. specialize (H O).
  rewrite compute_growth_length, H0, H1 in H.
  assert (0 < 0); [apply H; cbn; lia|lra].
Qed.

Lemma forecast_value_step (m c initial : R) (i : nat) :
  0 <= m -> 0 <= initial -> 0 <= c ->
  forecast_value m c initial i <= forecast_value m c initial (S i).
Proof.
  intros Hm Hi Hc.
  pose proof (forecast_value_nonneg m c initial i ltac:(lra) Hi Hc) as H0.
  cbn [forecast_value]. nra.
Qed.

Lemma forecast_value_later (m c initial : R) (i j : nat) :
  0 <= m -> 0 <= initial -> 0 <= c -> (i <= j)%nat ->
  forecast_value m c initial i <= forecast_value m c initial j.
Proof.
  intros Hm Hi Hc Hij. induction Hij as [|j _ IH]; [lra|].
  pose proof (forecast_value_step m c initial j Hm Hi Hc). lra.
Qed.

Lemma forecast_values_sorted (m c initial : R) (n a : nat) :
  0 <= m -> 0 <= initial -> 0 <= c ->
  StronglySorted Rle (map (forecast_value m c initial) (seq a n)).
Proof.
  intros Hm Hi Hc. revert a.
  induction n as [|n IH]; intros a; cbn [seq map]; constructor; [apply IH|].
  apply Forall_forall. intros x Hx.
  apply in_map_iff in Hx. destruct Hx as (j & <- & Hj).
  apply in_seq in Hj. apply forecast_value_later; auto. lia.
Qed.

(** C7, amended: for every annual rate > 0, every initial value >= 0, every
    monthly contribution >= 0 and every [years >= 1], the sequence returned
    by [compute_growth] is non-decreasing: no value is below an earlier
    one, and the first is not below the initial value. *)
Theorem compute_growth_non_decreasing
  (initial monthly : R) (years : Z) (annual_rate : R) :
  0 < annual_rate -> 0 <= initial -> 0 <= monthly -> (1 <= years)%Z ->
  non_decreasing (initial :: compute_growth initial monthly years annual_rate).
Proof.
  intros Hr Hi Hc Hy. unfold non_decreasing.
  rewrite compute_growth_values.
  pose proof (monthly_rate_nonneg annual_rate ltac:(lra)) as Hm.
  set (m := monthly_rate_of annual_rate) in *.
  change initial with (forecast_value m monthly initial 0) at 1.
  rewrite <- (map_map S (forecast_value m monthly initial)), seq_shift.
  change (forecast_value m monthly initial 0
          :: map (forecast_value m monthly initial)
               (seq 1 (Z.to_nat (years * 12))))
    with (map (forecast_value m monthly initial)
            (seq 0 (S (Z.to_nat (years * 12))))).
  now apply forecast_values_sorted.
Qed.

Lemma compute_growth_non_decreasing_witness :
  0 < 4 / 100 /\ 0 <= 1000 /\ 0 <= 0 /\ (1 <= 10)%Z
  /\ non_decreasing (1000 :: compute_growth 1000 0 10 (4 / 100)).
Proof.
  repeat (split; [lra || lia|]).
  apply (compute_growth_non_decreasing 1000 0 10 (4 / 100)); lra || lia.
Defined.

End ForecastGrowth.

(** ** Cumulative totals *)

Section Cumulative.
Import Calendar Savings Reference.
Local Open Scope R_scope.

Lemma cumulative_step_total (t : R) (r : deposit) :
  (if truthy (current_total r) then the (current_total r)
   else if is_total r then amount r else t + amount r)
  = match current_total r with
    | Some c =>
        if Req_dec_T c 0
        then (if is_total r then amount r else t + amount r)
        else c
    | None => if is_total r then amount r else t + amount r
    end.
Proof.
  unfold truthy, float_truthy, the.
  destruct (current_total r) as [c|]; [destruct (Req_dec_T c 0)|]; reflexivity.
Qed.

Lemma cumulative_fold (rs : list deposit) (st : cumulative_state) :
  cumulative_list (fold_left cumulative_step rs st)
  = cumulative_list st ++ running_totals (total st) rs.
Proof.
  revert st. induction rs as [|r rs IH]; intros st; cbn [fold_left].
  - cbn. now rewrite app_nil_r.
  - rewrite IH.
    cbn [cumulative_step cumulative_list total running_totals].
    rewrite cumulative_step_total, <- app_assoc. reflexivity.
Qed.

Lemma running_totals_length (rs : list deposit) (t : R) :
  length (running_totals t rs) = length rs.
Proof.
  revert t. induction rs as [|r rs IH]; intros t; cbn [running_totals length];
    auto.
Qed.

(** C4: [cumulative] returns one running total per record, in order: the
    total starts at 0 and each record sets it to [current_total] when that
    is present and not zero, else to [amount] when [is_total] is set, else
    adds [amount] to it.  On two deposits of 100 and 50 followed by a total
    record with [current_total = 500] the totals are 100, 150, 500. *)
Theorem cumulative_running_totals :
  (forall rs : list deposit,
     cumulative rs = running_totals 0 rs
     /\ length (cumulative rs) = length rs)
  /\ (forall (d1 d2 d3 : datetime) (a3 : R),
        cumulative [mk_deposit d1 100 false None;
                    mk_deposit d2 50 false None;
                    mk_deposit d3 a3 true (Some 500)]
        = [100; 150; 500]).
Proof.
  assert (H : forall rs, cumulative rs = running_totals 0 rs).
  { intros rs. unfold cumulative. now rewrite cumulative_fold. }
  split.
  - intros rs. split; [apply H|]. rewrite H. apply running_totals_length.
  - intros d1 d2 d3 a3. rewrite H.
    cbn [running_totals current_total is_total amount].
    destruct (Req_dec_T 500 0) as [E|_]; [lra|].
    repeat f_equal; lra.
Qed.

End Cumulative.

(** ** Non-negative balances *)

Section NonNegative.
Import Calendar Savings Reference.
Local Open Scope R_scope.

Lemma update_value_nonneg (cv : R) (r : deposit) :
  0 <= cv -> nonneg_record r -> 0 <= update_value cv r.
Proof.
  intros Hcv [Ha Hc]. unfold update_value, truthy, the.
  destruct (current_total r) as [c|].
  - destruct (float_truthy c); [now apply Hc|lra].
  - lra.
Qed.

Lemma compound_nonneg (m : R) (n : nat) (cv : R) :
  0 <= 1 + m -> 0 <= cv -> 0 <= compound m n cv.
Proof.
  intros Hm. revert cv. induction n as [|n IH]; intros cv Hcv; cbn [compound].
  - exact Hcv.
  - apply IH. rewrite compute_growth_monthly_1. nra.
Qed.

Lemma synthetic_values_nonneg (m : R) (n : nat) (cv : R) :
  0 <= 1 + m -> 0 <= cv -> Forall (Rle 0) (synthetic_values m n cv).
Proof.
  intros Hm. revert cv.
  induction n as [|n IH]; intros cv Hcv; cbn [synthetic_values].
  - constructor.
  - assert (0 <= compute_growth_monthly cv 1 m)
      by (rewrite compute_growth_monthly_1; nra).
    constructor; [assumption|now apply IH].
Qed.

Lemma points_after_nonneg (m : R) (rs : list deposit) (cv : R) (last : datetime) :
  0 <= 1 + m -> 0 <= cv -> Forall nonneg_record rs ->
  Forall (Rle 0) (map snd (points_after m cv last rs)).
Proof.
  intros Hm. revert cv last.
  induction rs as [|r rs IH]; intros cv last Hcv Hrs; cbn [points_after map].
  - constructor.
  - inversion Hrs as [|r' rs' Hr Hrs']; subst.
    rewrite map_app. cbn [map snd].
    rewrite map_snd_combine
      by now rewrite synthetic_dates_length, synthetic_values_length.
    assert (0 <= update_value (compound m (gap last (date r)) cv) r).
    { apply update_value_nonneg; [now apply compound_nonneg|exact Hr]. }
    apply Forall_app. split; [now apply synthetic_values_nonneg|].
    constructor; [assumption|now apply IH].
Qed.

Lemma running_totals_nonneg (rs : list deposit) (t : R) :
  0 <= t -> Forall nonneg_record rs -> Forall (Rle 0) (running_totals t rs).
Proof.
  revert t. induction rs as [|r rs IH]; intros t Ht Hrs; cbn [running_totals].
  - constructor.
  - inversion Hrs as [|r' rs' [Ha Hc] Hrs']; subst.
    match goal with |- Forall _ (?x :: _) => assert (Hx : 0 <= x) end.
    { destruct (current_total r) as [c|].
      - destruct (Req_dec_T c 0); [destruct (is_total r); lra|now apply Hc].
      - destruct (is_total r); lra. }
    constructor; [exact Hx|now apply IH].
Qed.

(** C10: when the annual rate, every record amount, every present
    [current_total], the initial value and the monthly contribution are all
    >= 0, every value emitted by [reconstruct], every running total of
    [cumulative] and every value returned by [compute_growth] is >= 0. *)
Theorem nonnegative_preserved
  (rs : list deposit) (initial monthly : R) (years : Z) (annual_rate : R) :
  0 <= annual_rate ->
  Forall nonneg_record rs ->
  0 <= initial -> 0 <= monthly ->
  Forall (Rle 0) (map snd (reconstruct rs annual_rate))
  /\ Forall (Rle 0) (cumulative rs)
  /\ Forall (Rle 0) (compute_growth initial monthly years annual_rate).
Proof.
  intros Hr Hrs Hi Hc.
  pose proof (monthly_rate_nonneg annual_rate Hr) as Hm.
  split; [|split].
  - destruct rs as [|r rs]; [rewrite reconstruct_nil; constructor|].
    inversion Hrs as [|r' rs' Hr0 Hrs']; subst.
    rewrite reconstruct_cons. cbn [map snd].
    assert (0 <= update_value 0 r) by (apply update_value_nonneg; [lra|exact Hr0]).
    constructor; [assumption|].
    apply points_after_nonneg; [lra|assumption|assumption].
  - unfold cumulative. rewrite cumulative_fold. cbn [cumulative_list total app].
    apply running_totals_nonneg; [lra|exact Hrs].
  - rewrite compute_growth_values.
    apply Forall_forall. intros x Hx.
    apply in_map_iff in Hx. destruct Hx as (i & <- & _).
    apply forecast_value_nonneg; lra.
Qed.

Lemma nonnegative_preserved_witness :
  let rs := [mk_deposit (mk_datetime 2024 1 15) 100 false None;
             mk_deposit (mk_datetime 2024 4 2) 0 true (Some 500)] in
  0 <= growth_rate /\ Forall nonneg_record rs
  /\ Forall (Rle 0) (map snd (reconstruct rs growth_rate))
  /\ Forall (Rle 0) (cumulative rs)
  /\ Forall (Rle 0) (compute_growth 500 100 2 growth_rate).
Proof.
  intros rs.
  assert (Hg : 0 <= growth_rate) by (unfold growth_rate; lra).
  assert (Hrs : Forall nonneg_record rs).
  { unfold rs.
    apply Forall_cons; [|apply Forall_cons; [|apply Forall_nil]];
      (split; cbn [amount current_total]; [lra|]);
      intros c E; inversion E; lra. }
  split; [exact Hg|]. split; [exact Hrs|].
  apply (nonnegative_preserved rs 500 100 2 growth_rate Hg Hrs); lra.
Defined.

End NonNegative.

(** ** Further properties of the forecast *)

Section ForecastFurther.
Import Calendar Savings Reference Pages Further.
Local Open Scope R_scope.

Lemma forecast_value_continue (m c initial : R) (a b : nat) :
  forecast_value m c (forecast_value m c initial a) b
  = forecast_value m c initial (a + b).
Proof.
  induction b as [|b IH].
  - now rewrite Nat.add_0_r.
  - rewrite Nat.add_succ_r. cbn [forecast_value]. now rewrite IH.
Qed.

Lemma last_map_seq {A : Type} (f : nat -> A) (n : nat) (d : A) :
  last (map f (seq 0 n)) d = match n with O => d | S k => f k end.
Proof.
  destruct n as [|k]; [reflexivity|].
  rewrite seq_S, map_app. cbn [map]. apply last_last.
Qed.

Lemma compute_growth_last (initial monthly : R) (years : Z) (annual_rate : R) :
  last (compute_growth initial monthly years annual_rate) initial
  = forecast_value (monthly_rate_of annual_rate) monthly initial
      (Z.to_nat (years * 12)).
Proof.
  rewrite compute_growth_values, last_map_seq.
  destruct (Z.to_nat (years * 12)); reflexivity.
Qed.

Lemma map_seq_from {A : Type} (f : nat -> A) (a n : nat) :
  map f (seq a n) = map (fun i => f (a + i)%nat) (seq 0 n).
Proof.
  revert a. induction n as [|n IH]; intros a; [reflexivity|].
  cbn [seq map]. rewrite Nat.add_0_r. f_equal.
  rewrite IH, <- seq_shift, map_map.
  apply map_ext. intros i. f_equal. lia.
Qed.

(** X3: A forecast over [y1 + y2] years is the forecast over [y1] years
    followed by the forecast over [y2] years seeded with the last value of
    the first (the seed itself when [y1 = 0]): a longer horizon never
    changes the months already forecast. *)
Theorem compute_growth_split
  (initial monthly : R) (y1 y2 : Z) (annual_rate : R) :
  (0 <= y1)%Z -> (0 <= y2)%Z ->
  compute_growth initial monthly (y1 + y2) annual_rate
  = compute_growth initial monthly y1 annual_rate
    ++ compute_growth
         (last (compute_growth initial monthly y1 annual_rate) initial)
         monthly y2 annual_rate.
Proof.
  intros H1 H2.
  rewrite compute_growth_last, !compute_growth_values.
  replace (Z.to_nat ((y1 + y2) * 12))
    with (Z.to_nat (y1 * 12) + Z.to_nat (y2 * 12))%nat by lia.
  rewrite seq_app, map_app. f_equal.
  rewrite map_seq_from. apply map_ext. intros i.
  rewrite forecast_value_continue. f_equal. lia.
Qed.

Lemma compute_growth_split_witness :
  (0 <= 1)%Z /\ (0 <= 2)%Z
  /\ compute_growth 1000 100 (1 + 2) (4 / 100)
     = compute_growth 1000 100 1 (4 / 100)
       ++ compute_growth (last (compute_growth 1000 100 1 (4 / 100)) 1000)
            100 2 (4 / 100).
Proof.
  split; [lia|]. split; [lia|].
  apply (compute_growth_split 1000 100 1 2 (4 / 100)); lia.
Defined.

Lemma forecast_value_monotone (m1 m2 c1 c2 i1 i2 : R) (n : nat) :
  0 <= 1 + m1 -> m1 <= m2 -> 0 <= c1 -> c1 <= c2 -> 0 <= i1 -> i1 <= i2 ->
  forecast_value m1 c1 i1 n <= forecast_value m2 c2 i2 n.
Proof.
  intros Hm Hm' Hc Hc' Hi Hi'.
  induction n as [|n IH]; cbn [forecast_value]; [exact Hi'|].
  pose proof (forecast_value_nonneg m1 c1 i1 n Hm Hi Hc) as H0.
  nra.
Qed.

Lemma Forall2_map_same {A B C : Type} (P : B -> C -> Prop)
  (f : A -> B) (g : A -> C) (l : list A) :
  (forall x, P (f x) (g x)) -> Forall2 P (map f l) (map g l).
Proof.
  intros H. induction l as [|x l IH]; cbn [map]; constructor; auto.
Qed.

Lemma compute_growth_pointwise (i1 i2 c1 c2 : R) (years : Z) (r1 r2 : R) :
  0 <= i1 -> i1 <= i2 -> 0 <= c1 -> c1 <= c2 -> -1 < r1 -> r1 <= r2 ->
  Forall2 Rle (compute_growth i1 c1 years r1) (compute_growth i2 c2 years r2).
Proof.
  intros Hi Hi' Hc Hc' Hr Hr'.
  rewrite !compute_growth_values.
  apply Forall2_map_same. intros k.
  apply forecast_value_monotone; try assumption.
  - pose proof (one_plus_monthly_rate_pos r1 Hr). lra.
  - now apply monthly_rate_monotone.
Qed.

(** X4: A higher seed, a higher monthly contribution or a higher annual rate
    never lowers any month of the forecast, as long as the lower seed and
    contribution are not negative and the lower rate is above -100%.  In
    particular the 0%, 4% and 8% scenarios of one run are ordered. *)
Theorem compute_growth_monotone
  (i1 i2 c1 c2 : R) (years : Z) (r1 r2 : R) :
  0 <= i1 -> i1 <= i2 -> 0 <= c1 -> c1 <= c2 -> -1 < r1 -> r1 <= r2 ->
  pointwise_le (compute_growth i1 c1 years r1) (compute_growth i2 c2 years r2).
Proof.
  intros Hi Hi' Hc Hc' Hr Hr'. unfold pointwise_le.
  now apply compute_growth_pointwise.
Qed.

Lemma compute_growth_monotone_witness :
  0 <= 1000 /\ 0 <= 500 /\ -1 < 4 / 100 /\ 4 / 100 <= 8 / 100
  /\ pointwise_le (compute_growth 1000 500 10 (4 / 100))
       (compute_growth 1000 500 10 (8 / 100)).
Proof.
  repeat (split; [lra|]).
  apply (compute_growth_monotone 1000 1000 500 500 10 (4 / 100) (8 / 100)); lra.
Defined.

End ForecastFurther.

(** ** Further properties of the history reconstruction *)

Section HistoryFurther.
Import Calendar Savings Reference Pages Further.
Local Open Scope R_scope.

(** The series of a history continued by more records. *)
Lemma reconstruct_app (r0 : deposit) (rs rs' : list deposit) (g : R) :
  reconstruct ((r0 :: rs) ++ rs') g
  = reconstruct (r0 :: rs) g
    ++ points_after (monthly_rate_of g) (final_value (reconstruct (r0 :: rs) g))
         (date (last rs r0)) rs'.
Proof.
  destruct (run_history_invariant g (r0 :: rs)) as (Hlen & _ & Hd).
  cbv zeta in Hd.
  rewrite final_value_reconstruct.
  unfold reconstruct at 1 2. unfold run_history at 1 2.
  rewrite fold_left_app. fold (run_history g (r0 :: rs)).
  destruct (history_fold_after (monthly_rate_of g) rs'
              (run_history g (r0 :: rs)) (date (last rs r0)) Hd Hlen) as [E _].
  exact E.
Qed.

(** X7: Later records never change the points already emitted: the series of
    [rs] is the beginning of the series of [rs ++ rs']. *)
Theorem reconstruct_prefix (rs rs' : list deposit) (g : R) :
  firstn (length (reconstruct rs g)) (reconstruct (rs ++ rs') g)
  = reconstruct rs g.
Proof.
  destruct rs as [|r0 rs]; [reflexivity|].
  rewrite reconstruct_app.
  rewrite firstn_app, Nat.sub_diag, firstn_all. cbn [firstn].
  apply app_nil_r.
Qed.

Lemma dates_after_length (last : datetime) (ds : list datetime) :
  length (dates_after last ds) = (length ds + gaps_after last ds)%nat.
Proof.
  revert last. induction ds as [|d ds IH]; intros last;
    cbn [dates_after gaps_after length]; [reflexivity|].
  rewrite length_app, synthetic_dates_length. cbn [length]. rewrite IH. lia.
Qed.

(** X8: The series has one point per record plus, between two consecutive
    records, one synthetic point per calendar month that separates them
    (none when the months go backwards). *)
Theorem reconstruct_length (rs : list deposit) (g : R) :
  length (reconstruct rs g) = (length rs + synthetic_count rs)%nat.
Proof.
  destruct rs as [|r rs]; [reflexivity|].
  assert (E : length (reconstruct (r :: rs) g)
              = length (map fst (reconstruct (r :: rs) g)))
    by (symmetry; apply length_map).
  rewrite E, reconstruct_dates.
  unfold synthetic_count. cbn [map length].
  now rewrite dates_after_length, length_map.
Qed.

Lemma reconstruct_snoc (rs : list deposit) (r : deposit) (g : R) :
  reconstruct (rs ++ [r]) g
  = removelast (reconstruct (rs ++ [r]) g) ++ [(date r, balance_after g rs r)].
Proof.
  unfold reconstruct, balance_after. rewrite run_history_snoc.
  destruct (run_history_invariant g rs) as (Hlen & _ & Hd).
  cbv zeta in Hlen, Hd.
  set (st := run_history g rs) in *.
  assert (E : exists ds vs, length ds = length vs
              /\ history_step (monthly_rate_of g) st r
                 = {| current_value := current_value
                                         (history_step (monthly_rate_of g) st r);
                      last_date := Some (date r);
                      graph_dates := ds ++ [date r];
                      graph_values :=
                        vs ++ [current_value
                                 (history_step (monthly_rate_of g) st r)] |}).
  { destruct (last_date st) as [d|] eqn:El.
    - rewrite (history_step_after _ st d r El).
      eexists _, _. split; [|reflexivity].
      rewrite !length_app, synthetic_dates_length, synthetic_values_length. lia.
    - rewrite (history_step_first _ st r El).
      eexists _, _. split; [|reflexivity]. exact Hlen. }
  destruct E as (ds & vs & Hl & E).
  set (cv := current_value (history_step (monthly_rate_of g) st r)) in *.
  rewrite E. cbn [graph_dates graph_values current_value].
  rewrite combine_snoc by exact Hl.
  now rewrite removelast_last.
Qed.

Lemma update_value_total (cv cv' : R) (r : deposit) :
  truthy (current_total r) = true -> update_value cv r = update_value cv' r.
Proof. intros H. unfold update_value. now rewrite H. Qed.

(** X10: A record whose [current_total] is present and not zero cuts the series
    off from what came before it: from that record's point on, the series
    is the one the record and its successors give by themselves. *)
Theorem reconstruct_restart (pre : list deposit) (r : deposit)
  (post : list deposit) (g : R) :
  truthy (current_total r) = true ->
  reconstruct (pre ++ r :: post) g
  = removelast (reconstruct (pre ++ [r]) g) ++ reconstruct (r :: post) g.
Proof.
  intros Ht.
  replace (pre ++ r :: post) with ((pre ++ [r]) ++ post)
    by now rewrite <- app_assoc.
  assert (Hb : balance_after g pre r = update_value 0 r).
  { rewrite balance_after_update. now apply update_value_total. }
  destruct (pre ++ [r]) as [|r0 rs] eqn:E; [now destruct pre|].
  assert (Hlast : last rs r0 = r).
  { change (last rs r0) with (last rs r0).
    assert (H : last (r0 :: rs) r0 = r) by (rewrite <- E; apply last_last).
    destruct rs; [exact H|exact H]. }
  rewrite reconstruct_app, Hlast, <- E.
  rewrite final_value_reconstruct.
  change (current_value (run_history g (pre ++ [r]))) with (balance_after g pre r).
  rewrite (reconstruct_snoc pre r g) at 1.
  rewrite Hb, <- app_assoc. cbn [app].
  now rewrite reconstruct_cons.
Qed.

Lemma reconstruct_restart_witness :
  let d := mk_datetime 2024 1 15 in
  let pre := [mk_deposit d 100 false None] in
  let r := mk_deposit (add_days d 40) 0 true (Some 500) in
  let post := [mk_deposit (add_days d 100) 50 false None] in
  truthy (current_total r) = true
  /\ reconstruct (pre ++ r :: post) growth_rate
     = removelast (reconstruct (pre ++ [r]) growth_rate)
       ++ reconstruct (r :: post) growth_rate.
Proof.
  intros d pre r post.
  assert (H : truthy (current_total r) = true).
  { cbn [r current_total truthy]. apply float_truthy_nonzero. lra. }
  split; [exact H|].
  apply (reconstruct_restart pre r post growth_rate H).
Defined.

Lemma synthetic_values_growing (m : R) (n : nat) (cv : R) :
  0 <= m -> 0 <= cv ->
  StronglySorted Rle (synthetic_values m n cv)
  /\ Forall (fun v => cv <= v <= compound m n cv) (synthetic_values m n cv)
  /\ cv <= compound m n cv.
Proof.
  intros Hm. revert cv.
  induction n as [|n IH]; intros cv Hcv; cbn [synthetic_values compound].
  - repeat split; try constructor; lra.
  - set (cv' := compute_growth_monthly cv 1 m).
    assert (Hcv' : cv <= cv').
    { unfold cv'. rewrite compute_growth_monthly_1. nra. }
    destruct (IH cv' ltac:(lra)) as (Hs & Hf & Hc).
    split; [|split; [|lra]].
    + constructor; [exact Hs|].
      eapply Forall_impl; [|exact Hf]. cbv beta. intros v Hv. lra.
    + constructor; [lra|].
      eapply Forall_impl; [|exact Hf]. cbv beta. intros v Hv. lra.
Qed.

Lemma points_after_growing (m : R) (rs : list deposit) (cv : R) (last : datetime) :
  0 <= m -> 0 <= cv ->
  Forall plain rs -> Forall (fun r => 0 <= amount r) rs ->
  StronglySorted Rle (map snd (points_after m cv last rs))
  /\ Forall (Rle cv) (map snd (points_after m cv last rs)).
Proof.
  intros Hm. revert cv last.
  induction rs as [|r rs IH]; intros cv last Hcv Hp Ha; cbn [points_after map].
  - split; constructor.
  - inversion Hp as [|r' rs' Hpr Hp']; subst.
    inversion Ha as [|r' rs' Har Ha']; subst.
    rewrite map_app. cbn [map snd].
    rewrite map_snd_combine
      by now rewrite synthetic_dates_length, synthetic_values_length.
    destruct (synthetic_values_growing m (gap last (date r)) cv Hm Hcv)
      as (Hs & Hf & Hc).
    set (cv1 := compound m (gap last (date r)) cv) in *.
    assert (Hu : update_value cv1 r = cv1 + amount r).
    { unfold update_value. unfold plain in Hpr. now rewrite Hpr. }
    rewrite Hu.
    destruct (IH (cv1 + amount r) (date r) ltac:(lra) Hp' Ha') as (IHs & IHf).
    rewrite Forall_forall in Hf, IHf.
    split.
    + apply StronglySorted_append; [exact Hs| |].
      * constructor; [exact IHs|now apply Forall_forall].
      * intros x y Hx Hy. specialize (Hf x Hx).
        destruct Hy as [<-|Hy]; [lra|].
        specialize (IHf y Hy). unfold Rle in *. lra.
    + apply Forall_app. split.
      * apply Forall_forall. intros x Hx. specialize (Hf x Hx). lra.
      * constructor; [lra|].
        apply Forall_forall. intros y Hy. specialize (IHf y Hy). lra.
Qed.

(** X11: A history of plain deposits (no usable [current_total]) with amounts
    >= 0, reconstructed at an annual rate >= 0, never goes down. *)
Theorem reconstruct_deposits_non_decreasing (rs : list deposit) (g : R) :
  0 <= g -> Forall plain rs -> Forall (fun r => 0 <= amount r) rs ->
  non_decreasing (map snd (reconstruct rs g)).
Proof.
  intros Hg Hp Ha. unfold non_decreasing.
  destruct rs as [|r rs]; [rewrite reconstruct_nil; constructor|].
  inversion Hp as [|r' rs' Hpr Hp']; subst.
  inversion Ha as [|r' rs' Har Ha']; subst.
  rewrite reconstruct_cons. cbn [map snd].
  assert (Hu : update_value 0 r = 0 + amount r).
  { unfold update_value. unfold plain in Hpr. now rewrite Hpr. }
  rewrite Hu.
  destruct (points_after_growing (monthly_rate_of g) rs (0 + amount r) (date r)
              (monthly_rate_nonneg g Hg) ltac:(lra) Hp' Ha') as (Hs & Hf).
  constructor; assumption.
Qed.

Lemma reconstruct_deposits_non_decreasing_witness :
  let d := mk_datetime 2024 1 15 in
  let rs := [mk_deposit d 100 false None;
             mk_deposit (add_days d 70) 50 true (Some 0);
             mk_deposit (add_days d 200) 0 false None] in
  0 <= growth_rate /\ Forall plain rs /\ Forall (fun r => 0 <= amount r) rs
  /\ non_decreasing (map snd (reconstruct rs growth_rate)).
Proof.
  intros d rs.
  assert (Hg : 0 <= growth_rate) by (unfold growth_rate; lra).
  assert (Hp : Forall plain rs).
  { unfold rs, plain.
    apply Forall_cons; [|apply Forall_cons; [|apply Forall_cons; [|apply Forall_nil]]];
      cbn [current_total truthy]; try reflexivity. apply float_truthy_0. }
  assert (Ha : Forall (fun r => 0 <= amount r) rs).
  { unfold rs.
    apply Forall_cons; [|apply Forall_cons; [|apply Forall_cons; [|apply Forall_nil]]];
      cbn [amount]; lra. }
  split; [exact Hg|]. split; [exact Hp|]. split; [exact Ha|].
  apply (reconstruct_deposits_non_decreasing rs growth_rate Hg Hp Ha).
Defined.

(** *** Against the cumulative totals *)

Lemma last_cons_default {A : Type} (a d : A) (l : list A) :
  last (a :: l) d = last l a.
Proof.
  revert a d. induction l as [|b l IH]; intros a d; [reflexivity|].
  change (last (a :: b :: l) d) with (last (b :: l) d).
  now rewrite (IH b d), (IH b a).
Qed.

Lemma interpolate_value (m : R) (st : history) (r : deposit) :
  current_value (interpolate m st r)
  = match last_date st with
    | Some last => compound m (gap last (date r)) (current_value st)
    | None => current_value st
    end.
Proof.
  unfold interpolate. destruct (last_date st); [|reflexivity].
  now rewrite range_seq, interpolation_fold.
Qed.

Lemma history_step_value (m : R) (st : history) (r : deposit) :
  current_value (history_step m st r)
  = update_value (current_value (interpolate m st r)) r.
Proof. reflexivity. Qed.

Lemma cumulative_last (rs : list deposit) :
  last (cumulative rs) 0 = last (running_totals 0 rs) 0.
Proof.
  unfold cumulative. now rewrite cumulative_fold.
Qed.

Lemma running_total_step (t : R) (r : deposit) (rs : list deposit) :
  exists t' : R,
    running_totals t (r :: rs) = t' :: running_totals t' rs
    /\ t' = (if truthy (current_total r) then the (current_total r)
             else if is_total r then amount r else t + amount r).
Proof.
  eexists. split; [reflexivity|]. now rewrite cumulative_step_total.
Qed.

Lemma history_matches_totals (rs : list deposit) (st : history) :
  Forall flag_agrees rs ->
  current_value (fold_left (history_step (monthly_rate_of 0)) rs st)
  = last (running_totals (current_value st) rs) (current_value st).
Proof.
  revert st. induction rs as [|r rs IH]; intros st Hf; cbn [fold_left].
  - reflexivity.
  - inversion Hf as [|r' rs' Hr Hf']; subst.
    destruct (running_total_step (current_value st) r rs) as (t' & E & Ht).
    rewrite E, last_cons_default, IH by exact Hf'.
    rewrite history_step_value, interpolate_value, monthly_rate_of_0.
    assert (Hc : match last_date st with
                 | Some last => compound 0 (gap last (date r)) (current_value st)
                 | None => current_value st
                 end = current_value st).
    { destruct (last_date st); [apply compound_flat|reflexivity]. }
    rewrite Hc.
    assert (Hu : update_value (current_value st) r = t').
    { rewrite Ht. unfold update_value. unfold flag_agrees in Hr.
      destruct (truthy (current_total r)); [reflexivity|].
      now rewrite Hr. }
    now rewrite Hu.
Qed.

(** X12: When every record's [is_total] flag agrees with its [current_total]
    (set exactly when [current_total] is present and not zero), the
    history reconstructed at rate 0 ends on the last cumulative total, the
    seed of the forecast. *)
Theorem reconstruct_no_growth_cumulative (rs : list deposit) :
  Forall flag_agrees rs ->
  final_value (reconstruct rs 0) = last (cumulative rs) 0.
Proof.
  intros Hf.
  rewrite final_value_reconstruct, cumulative_last.
  unfold run_history. now rewrite history_matches_totals.
Qed.

Lemma reconstruct_no_growth_cumulative_witness :
  let d := mk_datetime 2024 1 15 in
  let rs := [add_deposit_record d 100 0;
             add_deposit_record (add_days d 70) 50 500;
             add_deposit_record (add_days d 200) 25 0] in
  Forall flag_agrees rs
  /\ final_value (reconstruct rs 0) = last (cumulative rs) 0.
Proof.
  intros d rs.
  assert (H0 : float_gt_0 0 = false).
  { unfold float_gt_0. destruct (Rlt_dec 0 0); [lra|reflexivity]. }
  assert (H5 : float_gt_0 500 = true).
  { unfold float_gt_0. destruct (Rlt_dec 0 500); [reflexivity|lra]. }
  assert (Hf : Forall flag_agrees rs).
  { unfold rs, flag_agrees, add_deposit_record.
    apply Forall_cons; [|apply Forall_cons; [|apply Forall_cons; [|apply Forall_nil]]];
      cbn [is_total current_total]; rewrite ?H0, ?H5; cbn [truthy];
      try reflexivity.
    symmetry. apply float_truthy_nonzero. lra. }
  split; [exact Hf|].
  apply (reconstruct_no_growth_cumulative rs Hf).
Defined.

Lemma update_value_above_total (t cv : R) (r : deposit) :
  0 <= t -> t <= cv -> nonneg_record r ->
  let t' := if truthy (current_total r) then the (current_total r)
            else if is_total r then amount r else t + amount r in
  0 <= t' /\ t' <= update_value cv r.
Proof.
  intros Ht Hc [Ha Hn]. unfold update_value, truthy, the. cbv zeta.
  destruct (current_total r) as [c|].
  - specialize (Hn c eq_refl).
    destruct (float_truthy c); [lra|]. destruct (is_total r); lra.
  - destruct (is_total r); lra.
Qed.

Lemma history_above_totals (m : R) (rs : list deposit) (st : history) (t : R) :
  0 <= m -> 0 <= t -> t <= current_value st -> Forall nonneg_record rs ->
  last (running_totals t rs) t
  <= current_value (fold_left (history_step m) rs st).
Proof.
  intros Hm. revert st t.
  induction rs as [|r rs IH]; intros st t Ht Hc Hn; cbn [fold_left].
  - exact Hc.
  - inversion Hn as [|r' rs' Hr Hn']; subst.
    destruct (running_total_step t r rs) as (t' & E & Et).
    rewrite E, last_cons_default.
    assert (Hi : current_value st <= current_value (interpolate m st r)).
    { rewrite interpolate_value. destruct (last_date st); [|lra].
      apply synthetic_values_growing; [exact Hm|lra]. }
    destruct (update_value_above_total t (current_value (interpolate m st r)) r
                Ht ltac:(lra) Hr) as [H0 H1].
    cbv zeta in H0, H1. rewrite <- Et in H0, H1.
    apply IH; [exact H0| |exact Hn'].
    now rewrite history_step_value.
Qed.

(** X13: With an annual rate >= 0 and no negative number in the records, the
    reconstructed history ends at or above the last cumulative total: the
    forecast is seeded with a balance that leaves out the growth assumed
    by the history chart. *)
Theorem cumulative_below_reconstruct (rs : list deposit) (g : R) :
  0 <= g -> Forall nonneg_record rs ->
  last (cumulative rs) 0 <= final_value (reconstruct rs g).
Proof.
  intros Hg Hn.
  rewrite final_value_reconstruct, cumulative_last.
  unfold run_history.
  apply history_above_totals;
    [now apply monthly_rate_nonneg|lra|cbn; lra|exact Hn].
Qed.

Lemma cumulative_below_reconstruct_witness :
  let d := mk_datetime 2024 1 15 in
  let rs := [mk_deposit d 100 false None;
             mk_deposit (add_days d 400) 50 true None] in
  0 <= growth_rate /\ Forall nonneg_record rs
  /\ last (cumulative rs) 0 <= final_value (reconstruct rs growth_rate).
Proof.
  intros d rs.
  assert (Hg : 0 <= growth_rate) by (unfold growth_rate; lra).
  assert (Hn : Forall nonneg_record rs).
  { unfold rs.
    apply Forall_cons; [|apply Forall_cons; [|apply Forall_nil]];
      (split; cbn [amount current_total]; [lra|]);
      intros c E; discriminate E. }
  split; [exact Hg|]. split; [exact Hn|].
  apply (cumulative_below_reconstruct rs growth_rate Hg Hn).
Defined.

(** *** Days of the month *)

Lemma gap_month_index (last d : datetime) :
  gap last d = Z.to_nat (month_index d - month_index last).
Proof.
  unfold gap, months_between, month_index. f_equal. lia.
Qed.

Lemma points_after_same_months (m cv : R) (rs1 rs2 : list deposit)
  (l1 l2 : datetime) :
  month_index l1 = month_index l2 ->
  Forall2 same_months rs1 rs2 ->
  map snd (points_after m cv l1 rs1) = map snd (points_after m cv l2 rs2).
Proof.
  intros Hl H. revert cv l1 l2 Hl.
  induction H as [|r1 r2 rs1 rs2 (Hd & Ha & Hc) _ IH]; intros cv l1 l2 Hl;
    cbn [points_after]; [reflexivity|].
  rewrite !map_app. cbn [map snd].
  rewrite !map_snd_combine
    by now rewrite synthetic_dates_length, synthetic_values_length.
  assert (Hg : gap l1 (date r1) = gap l2 (date r2))
    by (rewrite !gap_month_index; congruence).
  assert (Hu : forall v, update_value v r1 = update_value v r2)
    by (intros v; unfold update_value; now rewrite Ha, Hc).
  rewrite Hg, Hu. f_equal. f_equal. now apply IH.
Qed.

(** X14: The values of the series depend on the dates only through their year
    and month: two histories with the same amounts and [current_total]s,
    dated in the same calendar months, give the same values, whatever the
    days. *)
Theorem reconstruct_values_by_month (rs1 rs2 : list deposit) (g : R) :
  Forall2 same_months rs1 rs2 ->
  map snd (reconstruct rs1 g) = map snd (reconstruct rs2 g).
Proof.
  intros H. destruct H as [|r1 r2 rs1 rs2 (Hd & Ha & Hc) H];
    [reflexivity|].
  rewrite !reconstruct_cons. cbn [map snd].
  assert (Hu : update_value 0 r1 = update_value 0 r2)
    by (unfold update_value; now rewrite Ha, Hc).
  rewrite Hu. f_equal. now apply points_after_same_months.
Qed.

Lemma reconstruct_values_by_month_witness :
  let rs1 := [mk_deposit (mk_datetime 2024 1 31) 100 false None;
              mk_deposit (mk_datetime 2024 2 1) 50 false None] in
  let rs2 := [mk_deposit (mk_datetime 2024 1 1) 100 true None;
              mk_deposit (mk_datetime 2024 2 29) 50 false None] in
  Forall2 same_months rs1 rs2
  /\ map snd (reconstruct rs1 growth_rate) = map snd (reconstruct rs2 growth_rate).
Proof.
  intros rs1 rs2.
  assert (H : Forall2 same_months rs1 rs2).
  { unfold rs1, rs2, same_months.
    apply Forall2_cons; [|apply Forall2_cons; [|apply Forall2_nil]];
      cbn [date amount current_total]; repeat split. }
  split; [exact H|].
  apply (reconstruct_values_by_month rs1 rs2 growth_rate H).
Defined.

(** *** Records written by the form *)

Lemma float_gt_0_spec (c : R) :
  (float_gt_0 c = true /\ 0 < c) \/ (float_gt_0 c = false /\ c <= 0).
Proof.
  unfold float_gt_0. destruct (Rlt_dec 0 c); [left|right]; split; auto; lra.
Qed.

(** X15: A record written by the "Add Deposit" button is flagged [is_total]
    exactly when the total typed in is above 0, carries a [current_total]
    exactly then, and is processed by the history loop as its flag says: a
    total replaces the balance by [current_total], a deposit adds its
    amount. *)
Theorem add_deposit_record_follows_flag
  (g : R) (pre : list deposit) (d : datetime) (a c : R) :
  let r := add_deposit_record d a c in
  (is_total r = true <-> 0 < c)
  /\ current_total r = (if is_total r then Some c else None)
  /\ flag_agrees r
  /\ is_total_rule r (balance_before g pre r) (balance_after g pre r).
Proof.
  intros r. rewrite balance_after_update.
  unfold r, add_deposit_record, flag_agrees, is_total_rule, update_value.
  cbn [is_total current_total amount].
  destruct (float_gt_0_spec c) as [[E Hc]|[E Hc]]; rewrite E.
  - cbn [truthy the]. rewrite float_truthy_nonzero by lra.
    repeat split; auto.
  - cbn [truthy]. repeat split; auto; try discriminate. intros H. lra.
Qed.






End HistoryFurther.

(** ** The forecast run *)

Section ForecastRun.
Import Calendar Savings Reference Pages Further.
Local Open Scope R_scope.

Lemma range_from_length (a b : Z) : length (range_from a b) = Z.to_nat (b - a).
Proof. unfold range_from. now rewrite length_map, length_seq. Qed.

Lemma range_from_in (a b x : Z) :
  In x (range_from a b) -> (a <= x < b)%Z.
Proof.
  unfold range_from. rewrite in_map_iff. intros (k & <- & Hk).
  apply in_seq in Hk. lia.
Qed.

Lemma range_from_sorted (a b : Z) : StronglySorted Z.lt (range_from a b).
Proof.
  unfold range_from. generalize (Z.to_nat (b - a)) as n. intros n.
  generalize 0%nat as k. induction n as [|n IH]; intros k; cbn [seq map].
  - constructor.
  - constructor; [apply IH|].
    apply Forall_forall. intros x Hx.
    apply in_map_iff in Hx. destruct Hx as (j & <- & Hj).
    apply in_seq in Hj. lia.
Qed.

Lemma cumulative_length (rs : list deposit) : length (cumulative rs) = length rs.
Proof.
  unfold cumulative. rewrite cumulative_fold. cbn [cumulative_list app total].
  apply running_totals_length.
Qed.

Lemma range_from_has (a b x : Z) :
  (a <= x < b)%Z -> In x (range_from a b).
Proof.
  intros Hx. unfold range_from. apply in_map_iff.
  exists (Z.to_nat (x - a)). split; [lia|]. apply in_seq. lia.
Qed.

Lemma add_timedelta_value (d : datetime) (n : Z) (d' : datetime) :
  add_timedelta d n = Some d' -> d' = add_days d n.
Proof.
  unfold add_timedelta, timedelta_days.
  destruct (Z.abs n <=? 999999999)%Z; [|discriminate].
  destruct ((0 <? d + n)%Z && (d + n <=? _MAXORDINAL)%Z); [|discriminate].
  intros H. now injection H as <-.
Qed.

(** The forecast axis, when every date of it can be held. *)
Lemma forecast_axis_dates (l : datetime) (ks : list Z) (ds : list datetime) :
  all_or_none (map (fun i : Z => add_timedelta l (30 * i)) ks) = Some ds ->
  ds = map (fun k : Z => add_days l (30 * k)) ks.
Proof.
  revert ds. induction ks as [|k ks IH]; cbn [map all_or_none]; intros ds H.
  - now injection H as <-.
  - destruct (add_timedelta l (30 * k)) as [d|] eqn:E; [|discriminate].
    destruct (all_or_none (map (fun i : Z => add_timedelta l (30 * i)) ks))
      as [ds'|]; [|discriminate].
    injection H as <-. f_equal; [now apply add_timedelta_value|now apply IH].
Qed.

(** The forecast axis is refused exactly when one date of it is. *)
Lemma forecast_axis_refused (l : datetime) (ks : list Z) :
  all_or_none (map (fun i : Z => add_timedelta l (30 * i)) ks) = None
  <-> exists k : Z, In k ks /\ add_timedelta l (30 * k) = None.
Proof.
  induction ks as [|k ks IH]; cbn [map all_or_none].
  - split; [discriminate|]. intros (k & [] & _).
  - destruct (add_timedelta l (30 * k)) as [d|] eqn:E.
    + destruct (all_or_none (map (fun i : Z => add_timedelta l (30 * i)) ks))
        as [ds'|].
      * split; [discriminate|]. intros (k' & [<-|Hk'] & E'); [congruence|].
        destruct IH as [_ IH].
        assert (H : Some ds' = None) by (apply IH; exists k'; auto).
        discriminate H.
      * split; [|reflexivity]. intros _.
        destruct IH as [IH _]. destruct (IH eq_refl) as (k' & Hk' & E').
        exists k'. split; [now right|exact E'].
    + split; [|reflexivity]. intros _. exists k. split; [now left|exact E].
Qed.

(** What a run stores when it stores something. *)
Lemma run_forecast_stored (r : deposit) (rs : list deposit) (monthly : R)
  (years : Z) (fd : forecast_data) :
  run_forecast (r :: rs) monthly years = Some fd ->
  fd = {| hist_dates := map date (r :: rs);
          hist_cumulative := cumulative (r :: rs);
          forecast_dates :=
            map (fun k : Z =>
                   add_days (last (map date (r :: rs)) (date r)) (30 * k))
              (range_from 1 (12 * years + 1));
          no_growth :=
            compute_growth (last (cumulative (r :: rs)) 0) monthly years
              no_growth_rate;
          mid :=
            compute_growth (last (cumulative (r :: rs)) 0) monthly years
              mid_growth_rate;
          high :=
            compute_growth (last (cumulative (r :: rs)) 0) monthly years
              high_growth_rate |}.
Proof.
  intros H. cbv beta iota zeta delta [run_forecast] in H.
  destruct (all_or_none _) as [ds|] eqn:E in H; [|discriminate].
  apply forecast_axis_dates in E. subst ds.
  apply (f_equal (fun o => match o with Some x => x | None => fd end)) in H.
  cbv beta iota in H. now subst fd.
Qed.

Lemma last_date_default (r : deposit) (rs : list deposit) :
  last (map date (r :: rs)) (date r) = last (map date (r :: rs)) 0%Z.
Proof. cbn [map]. now rewrite !last_cons_default. Qed.

(** X16: The forecast run stores nothing exactly when there is no deposit
    or when some forecast date, [30 * k] days after the last record for a
    month [k] of the horizon, cannot be held by a datetime (the
    [OverflowError] of line 289, past 9999-12-31).  When it stores a
    result, every series has as many values as its axis has dates: the
    history axis one per record, the forecast axis and the three
    scenarios [12 * years] each. *)
Theorem run_forecast_aligned (rs : list deposit) (monthly : R) (years : Z) :
  (run_forecast rs monthly years = None
   <-> rs = [] \/ axis_overflows (last (map date rs) 0%Z) years)
  /\ (forall fd : forecast_data,
        run_forecast rs monthly years = Some fd ->
        length (hist_dates fd) = length rs
        /\ length (hist_cumulative fd) = length (hist_dates fd)
        /\ length (forecast_dates fd) = Z.to_nat (12 * years)
        /\ length (no_growth fd) = length (forecast_dates fd)
        /\ length (mid fd) = length (forecast_dates fd)
        /\ length (high fd) = length (forecast_dates fd)).
Proof.
  split.
  - destruct rs as [|r rs]; [split; [now left|reflexivity]|].
    rewrite <- last_date_default. unfold axis_overflows.
    cbv beta iota zeta delta [run_forecast].
    destruct (all_or_none _) as [ds|] eqn:E.
    + split; [discriminate|]. intros [H|(k & Hk & Ek)]; [discriminate H|].
      assert (Hn : all_or_none
                     (map (fun i : Z =>
                             add_timedelta (last (map date (r :: rs)) (date r))
                               (30 * i))
                        (range_from 1 (12 * years + 1))) = None).
      { apply forecast_axis_refused. exists k. split; [|exact Ek].
        apply range_from_has. lia. }
      congruence.
    + split; [|reflexivity]. intros _. right.
      apply forecast_axis_refused in E. destruct E as (k & Hk & Ek).
      exists k. split; [|exact Ek]. apply range_from_in in Hk. lia.
  - intros fd H. destruct rs as [|r rs]; [discriminate|].
    apply run_forecast_stored in H. subst fd.
    cbv [hist_dates hist_cumulative forecast_dates no_growth mid high].
    rewrite !length_map, cumulative_length, range_from_length,
      !compute_growth_length.
    replace (12 * years + 1 - 1)%Z with (12 * years)%Z by lia.
    replace (years * 12)%Z with (12 * years)%Z by lia.
    repeat split; reflexivity.
Qed.

Lemma last_in_or_default {A : Type} (l : list A) (d : A) :
  l <> [] -> In (last l d) l.
Proof.
  induction l as [|a l IH]; [congruence|]. intros _.
  destruct l as [|b l]; [now left|].
  right. apply IH. discriminate.
Qed.

Lemma sorted_below_last (l : list datetime) (d : datetime) :
  StronglySorted date_le l -> Forall (fun x => date_le x (last l d)) l.
Proof.
  induction l as [|a l IH]; intros Hs; [constructor|].
  inversion Hs as [|a' l' Hs' Hf]; subst.
  destruct l as [|b l].
  - constructor; [unfold date_le; cbn; lia|constructor].
  - change (last (a :: b :: l) d) with (last (b :: l) d).
    constructor; [|now apply IH].
    rewrite Forall_forall in Hf. apply Hf.
    apply last_in_or_default. discriminate.
Qed.

Lemma StronglySorted_lt_le (xs : list datetime) :
  StronglySorted Z.lt xs -> StronglySorted date_le xs.
Proof.
  induction 1 as [|a xs _ IH Ha]; constructor; [exact IH|].
  eapply Forall_impl; [|exact Ha]. cbv beta. unfold date_le. intros; lia.
Qed.

Lemma StronglySorted_steps (l : datetime) (xs : list Z) :
  StronglySorted Z.lt xs ->
  StronglySorted Z.lt (map (fun k : Z => add_days l (30 * k)) xs).
Proof.
  induction 1 as [|a xs _ IH Ha]; cbn [map]; constructor; [exact IH|].
  apply Forall_forall. intros x Hx.
  apply in_map_iff in Hx. destruct Hx as (k & <- & Hk).
  rewrite Forall_forall in Ha. specialize (Ha k Hk).
  unfold add_days. lia.
Qed.

(** X17: For records sorted by date the time axis of the forecast chart is in
    order: the history dates, then the forecast dates, which start 30 days
    after the last record and advance by 30 days. *)
Theorem run_forecast_axis (rs : list deposit) (monthly : R) (years : Z)
  (fd : forecast_data) :
  run_forecast rs monthly years = Some fd ->
  sorted_by_date rs ->
  StronglySorted date_le (hist_dates fd ++ forecast_dates fd)
  /\ forecast_dates fd
     = map (fun k : Z => add_days (last (hist_dates fd) 0%Z) (30 * k))
         (range_from 1 (12 * years + 1))
  /\ StronglySorted Z.lt (last (hist_dates fd) 0%Z :: forecast_dates fd).
Proof.
  intros H Hs. destruct rs as [|r rs]; [discriminate|].
  apply run_forecast_stored in H. subst fd.
  cbv [hist_dates forecast_dates].
  unfold sorted_by_date in Hs.
  set (ds := map date (r :: rs)) in *.
  assert (Hl : last ds (date r) = last ds 0%Z).
  { unfold ds. cbn [map]. now rewrite !last_cons_default. }
  rewrite Hl.
  set (l := last ds 0%Z).
  assert (Hf : StronglySorted Z.lt
                 (l :: map (fun k : Z => add_days l (30 * k))
                         (range_from 1 (12 * years + 1)))).
  { constructor.
    - apply StronglySorted_steps, range_from_sorted.
    - apply Forall_forall. intros x Hx.
      apply in_map_iff in Hx. destruct Hx as (k & <- & Hk).
      apply range_from_in in Hk. unfold add_days. lia. }
  split; [|split; [reflexivity|exact Hf]].
  inversion Hf as [|a xs Hfs Hfa]; subst.
  apply StronglySorted_append; [exact Hs| |].
  - now apply StronglySorted_lt_le.
  - intros x y Hx Hy.
    pose proof (sorted_below_last ds 0%Z Hs) as Hb.
    rewrite Forall_forall in Hb, Hfa.
    specialize (Hb x Hx). specialize (Hfa y Hy). fold l in Hb.
    unfold date_le in *. lia.
Qed.

Lemma sorted_two_dates :
  sorted_by_date
    [mk_deposit (mk_datetime 2024 1 15) 100 false None;
     mk_deposit (mk_datetime 2024 3 20) 50 false None].
Proof.
  unfold sorted_by_date, date_le. cbn [map date].
  repeat constructor; vm_compute; discriminate.
Qed.

Lemma run_forecast_axis_witness :
  let rs := [mk_deposit (mk_datetime 2024 1 15) 100 false None;
             mk_deposit (mk_datetime 2024 3 20) 50 false None] in
  exists fd : forecast_data,
    run_forecast rs 500 10 = Some fd
    /\ sorted_by_date rs
    /\ StronglySorted date_le (hist_dates fd ++ forecast_dates fd).
Proof.
  intros rs. eexists. split; [reflexivity|]. split; [exact sorted_two_dates|].
  apply (run_forecast_axis rs 500 10 _ eq_refl sorted_two_dates).
Defined.

Lemma Forall_last {A : Type} (P : A -> Prop) (l : list A) (d : A) :
  Forall P l -> P d -> P (last l d).
Proof.
  intros Hl Hd. induction Hl as [|a l Ha Hl IH]; [exact Hd|].
  destruct l; [exact Ha|exact IH].
Qed.

(** X18: When no record holds a negative number and the monthly contribution
    is >= 0, the three scenarios of a run are ordered month by month:
    0% growth is never above 4%, and 4% never above 8%; all three start
    from the same seed, the last cumulative total, which is >= 0. *)
Theorem run_forecast_scenarios (rs : list deposit) (monthly : R) (years : Z)
  (fd : forecast_data) :
  run_forecast rs monthly years = Some fd ->
  Forall nonneg_record rs -> 0 <= monthly ->
  0 <= last (hist_cumulative fd) 0
  /\ pointwise_le (no_growth fd) (mid fd)
  /\ pointwise_le (mid fd) (high fd).
Proof.
  intros H Hn Hc. destruct rs as [|r rs]; [discriminate|].
  apply run_forecast_stored in H. subst fd.
  cbv [hist_cumulative no_growth mid high].
  assert (H0 : 0 <= last (cumulative (r :: rs)) 0).
  { apply Forall_last; [|lra].
    unfold cumulative. rewrite cumulative_fold. cbn [cumulative_list total app].
    apply running_totals_nonneg; [lra|exact Hn]. }
  unfold pointwise_le, no_growth_rate, mid_growth_rate, high_growth_rate.
  split; [exact H0|].
  split; apply compute_growth_pointwise; lra.
Qed.

Lemma run_forecast_scenarios_witness :
  let rs := [mk_deposit (mk_datetime 2024 1 15) 100 false None;
             mk_deposit (mk_datetime 2024 3 20) 50 false None] in
  exists fd : forecast_data,
    run_forecast rs 500 10 = Some fd
    /\ Forall nonneg_record rs /\ 0 <= 500
    /\ pointwise_le (no_growth fd) (mid fd)
    /\ pointwise_le (mid fd) (high fd).
Proof.
  intros rs.
  assert (Hn : Forall nonneg_record rs).
  { unfold rs.
    apply Forall_cons; [|apply Forall_cons; [|apply Forall_nil]];
      (split; cbn [amount current_total]; [lra|]);
      intros c E; discriminate E. }
  assert (Hc : 0 <= 500) by lra.
  eexists. split; [reflexivity|]. split; [exact Hn|]. split; [exact Hc|].
  apply (run_forecast_scenarios rs 500 10 _ eq_refl Hn Hc).
Defined.

End ForecastRun.

(** ** Months between ordered dates *)

Section MonthsBetween.
Import Calendar CalendarTables.
Local Open Scope Z_scope.

(** X19: For two dates given by valid year, month and day, the first not after
    the second, the month count of line 234 is
    [(y2 - y1) * 12 + (m2 - m1)], it is never negative, and it is 0 exactly
    when both dates fall in the same month of the same year: on sorted
    records the inner loop is never cut short by a negative count. *)
Theorem months_between_ordered (y1 m1 d1 y2 m2 d2 : Z) :
  valid_date y1 m1 d1 -> valid_date y2 m2 d2 ->
  date_le (mk_datetime y1 m1 d1) (mk_datetime y2 m2 d2) ->
  let n := months_between (mk_datetime y1 m1 d1) (mk_datetime y2 m2 d2) in
  n = (y2 - y1) * 12 + (m2 - m1)
  /\ 0 <= n
  /\ (n = 0 <-> y1 = y2 /\ m1 = m2).
Proof.
  intros V1 V2 Hle n.
  assert (E : n = (y2 - y1) * 12 + (m2 - m1))
    by now apply months_between_mk_datetime.
  unfold date_le, mk_datetime in Hle.
  apply (ymd2ord_order y1 m1 d1 y2 m2 d2 V1 V2) in Hle.
  destruct V1 as [Hm1 _], V2 as [Hm2 _].
  split; [exact E|]. rewrite E.
  destruct Hle as [[Hy|[-> [Hm|[-> Hd]]]]|Heq].
  - split; [lia|]. split; lia.
  - split; [lia|]. split; lia.
  - split; [lia|]. split; [auto|lia].
  - injection Heq as -> -> ->. split; [lia|]. split; [auto|lia].
Qed.

Lemma months_between_ordered_witness :
  valid_date 2023 11 30 /\ valid_date 2024 2 29
  /\ date_le (mk_datetime 2023 11 30) (mk_datetime 2024 2 29)
  /\ months_between (mk_datetime 2023 11 30) (mk_datetime 2024 2 29) = 3.
Proof.
  assert (V1 : valid_date 2023 11 30).
  { unfold valid_date. change (_days_in_month 2023 11) with 30. lia. }
  assert (V2 : valid_date 2024 2 29).
  { unfold valid_date. change (_days_in_month 2024 2) with 29. lia. }
  assert (H : date_le (mk_datetime 2023 11 30) (mk_datetime 2024 2 29))
    by (unfold date_le; vm_compute; discriminate).
  split; [exact V1|]. split; [exact V2|]. split; [exact H|].
  apply (months_between_ordered 2023 11 30 2024 2 29 V1 V2 H).
Defined.

End MonthsBetween.

(** ** Accounts and the session *)

Section AccountsFacts.
Import Store.

Variable sha256_hexdigest : string -> string.


Lemma select_password_app (us vs : users_table) (name : string) :
  select_password (us ++ vs) name
  = match select_password us name with
    | Some h => Some h
    | None => select_password vs name
    end.
Proof.
  unfold select_password. rewrite filter_app.
  destruct (filter (fun r => String.eqb (username r) name) us); reflexivity.
Qed.

Lemma select_password_none (us : users_table) (name : string) :
  select_password us name = None
  <-> existsb (fun r => String.eqb (username r) name) us = false.
Proof.
  unfold select_password.
  induction us as [|r us IH]; cbn [filter existsb]; [tauto|].
  destruct (String.eqb (username r) name); cbn [orb]; [|exact IH].
  split; discriminate.
Qed.

Lemma select_password_unique (name name' pw : string) :
  select_password [{| username := name; password := pw |}] name'
  = if String.eqb name name' then Some pw else None.
Proof.
  unfold select_password. cbn [filter username].
  destruct (String.eqb name name'); reflexivity.
Qed.

(** X20: Registering a free username succeeds, and the same name and
    password then authenticate; a wrong password is refused unless its
    digest is the same. *)
Theorem register_then_login (us : users_table) (name pw pw' : string) :
  select_password us name = None ->
  snd (add_user sha256_hexdigest us name pw) = true
  /\ authenticate_user sha256_hexdigest
       (fst (add_user sha256_hexdigest us name pw)) name pw = Some true
  /\ authenticate_user sha256_hexdigest
       (fst (add_user sha256_hexdigest us name pw)) name pw'
     = Some (String.eqb (hash_password sha256_hexdigest pw)
               (hash_password sha256_hexdigest pw')).
Proof.
  intros H. unfold add_user.
  apply select_password_none in H as H'. rewrite H'. cbn [fst snd].
  unfold authenticate_user.
  rewrite select_password_app, H, select_password_unique, String.eqb_refl.
  now rewrite String.eqb_refl.
Qed.

(** X21: Registering never touches an existing account: a username that is
    taken is refused and the table is left as it was, and whatever the
    outcome every stored password stays what it was. *)
Theorem add_user_keeps_accounts (us : users_table) (name pw name' h : string) :
  select_password us name' = Some h ->
  select_password (fst (add_user sha256_hexdigest us name pw)) name' = Some h
  /\ (name' = name -> add_user sha256_hexdigest us name pw = (us, false)).
Proof.
  intros H. unfold add_user.
  destruct (existsb (fun r => String.eqb (username r) name) us) eqn:E.
  - cbn [fst]. auto.
  - cbn [fst]. rewrite select_password_app, H. split; [reflexivity|].
    intros ->. apply select_password_none in E. congruence.
Qed.

Lemma in_usernames_select (us : users_table) (name : string) :
  In name (map username us) -> select_password us name <> None.
Proof.
  intros Hin H. apply select_password_none in H.
  apply in_map_iff in Hin. destruct Hin as (r & <- & Hr).
  assert (existsb (fun r0 => String.eqb (username r0) (username r)) us = true).
  { apply existsb_exists. exists r. split; [exact Hr|apply String.eqb_refl]. }
  congruence.
Qed.

(** X22: The primary key stays a key: registering keeps usernames distinct. *)
Theorem add_user_keeps_key (us : users_table) (name pw : string) :
  NoDup (map username us) ->
  NoDup (map username (fst (add_user sha256_hexdigest us name pw))).
Proof.
  intros H. unfold add_user.
  destruct (existsb (fun r => String.eqb (username r) name) us) eqn:E;
    cbn [fst]; [exact H|].
  rewrite map_app. cbn [map username].
  apply NoDup_app; [exact H|repeat constructor; intros []|].
  intros a Ha [<-|[]].
  apply in_usernames_select in Ha. apply select_password_none in E.
  congruence.
Qed.

Lemma step_keeps_password (a : app) (e : event) (name h : string) :
  select_password (users a) name = Some h ->
  select_password (users (step sha256_hexdigest a e)) name = Some h.
Proof.
  intros H. destruct e as [n p|n p|]; cbn [step].
  - destruct (logged_in a); [exact H|].
    destruct (truth _); [exact H|exact H].
  - destruct (logged_in a); [exact H|]. cbn [users].
    now apply add_user_keeps_accounts.
  - destruct (logged_in a); exact H.
Qed.

Lemma step_keeps_session (a : app) (e : event) :
  (logged_in a = true -> select_password (users a) (session_user a) <> None) ->
  logged_in (step sha256_hexdigest a e) = true ->
  select_password (users (step sha256_hexdigest a e))
    (session_user (step sha256_hexdigest a e)) <> None.
Proof.
  intros Ha. destruct e as [n p|n p|]; cbn [step].
  - destruct (logged_in a) eqn:El; [intros _; now apply Ha|].
    destruct (truth (authenticate_user sha256_hexdigest (users a) n p)) eqn:Et.
    + cbn [logged_in users session_user]. intros _.
      unfold authenticate_user in Et.
      destruct (select_password (users a) n); [discriminate|discriminate].
    + rewrite El. discriminate.
  - destruct (logged_in a) eqn:El; [intros _; now apply Ha|].
    cbn [logged_in]. discriminate.
  - destruct (logged_in a) eqn:El; [cbn [logged_in]; discriminate|].
    rewrite El. discriminate.
Qed.

(** X23: Starting logged out, whatever buttons are pressed: whoever is logged
    in has an account, and no stored password is ever changed or
    removed. *)
Theorem session_invariant (a : app) (es : list event) :
  logged_in a = false ->
  (logged_in (run sha256_hexdigest a es) = true ->
   select_password (users (run sha256_hexdigest a es))
     (session_user (run sha256_hexdigest a es)) <> None)
  /\ (forall name h : string,
        select_password (users a) name = Some h ->
        select_password (users (run sha256_hexdigest a es)) name = Some h).
Proof.
  intros H0.
  assert (Hinv : logged_in a = true ->
                 select_password (users a) (session_user a) <> None)
    by (rewrite H0; discriminate).
  clear H0. unfold run. revert a Hinv.
  induction es as [|e es IH]; intros a Hinv; cbn [fold_left].
  - split; [exact Hinv|auto].
  - destruct (IH (step sha256_hexdigest a e) (step_keeps_session a e Hinv))
      as [H1 H2].
    split; [exact H1|].
    intros name h Hs. apply H2. now apply step_keeps_password.
Qed.

End AccountsFacts.

Section AccountsExamples.
Import Store String.
Local Open Scope string_scope.

Lemma register_then_login_witness :
  let digest := fun s : string => "#" ++ s in
  let alice := {| username := "alice"; password := digest "secret" |} in
  select_password [alice] "bob" = None
  /\ authenticate_user digest (fst (add_user digest [alice] "bob" "pw")) "bob" "pw"
     = Some true.
Proof.
  intros digest alice. split; [reflexivity|].
  apply (register_then_login digest [alice] "bob" "pw" "pw"). reflexivity.
Defined.

Lemma add_user_keeps_accounts_witness :
  let digest := fun s : string => "#" ++ s in
  let alice := {| username := "alice"; password := digest "secret" |} in
  select_password [alice] "alice" = Some (digest "secret")
  /\ select_password (fst (add_user digest [alice] "alice" "other")) "alice"
     = Some (digest "secret").
Proof.
  intros digest alice. split; [reflexivity|].
  apply (add_user_keeps_accounts digest [alice] "alice" "other" "alice"
           (digest "secret")).
  reflexivity.
Defined.

Lemma add_user_keeps_key_witness :
  let digest := fun s : string => "#" ++ s in
  let alice := {| username := "alice"; password := digest "secret" |} in
  NoDup (map username [alice])
  /\ NoDup (map username (fst (add_user digest [alice] "bob" "pw"))).
Proof.
  intros digest alice.
  assert (H : NoDup (map username [alice])).
  { cbn [map]. constructor; [intros []|constructor]. }
  split; [exact H|].
  apply (add_user_keeps_key digest [alice] "bob" "pw" H).
Defined.

Lemma session_invariant_witness :
  let digest := fun s : string => "#" ++ s in
  let a := {| users := []; logged_in := false; session_user := "" |} in
  let es := [Login "bob" "pw"; Register "bob" "pw"; Login "bob" "pw";
             Logout; Register "bob" "other"; Login "bob" "other"] in
  logged_in a = false
  /\ (logged_in (run digest a es) = true ->
      select_password (users (run digest a es))
        (session_user (run digest a es)) <> None).
Proof.
  intros digest a es. split; [reflexivity|].
  apply (session_invariant digest a es). reflexivity.
Defined.

End AccountsExamples.

(** ** The deposits table *)

Section DepositsTable.
Import Store.
Local Open Scope Z_scope.

Lemma max_id_above (rs : list deposit_row) :
  Forall (fun r => row_id r <= max_id rs) rs.
Proof.
  induction rs as [|r rs IH]; [constructor|].
  cbn [max_id fold_right]. fold (max_id rs).
  constructor; [lia|].
  eapply Forall_impl; [|exact IH]. cbv beta. intros; lia.
Qed.

Lemma next_id_above (t : deposits_table) :
  sequence t < next_id t /\ Forall (fun r => row_id r < next_id t) (rows t).
Proof.
  unfold next_id. split; [lia|].
  eapply Forall_impl; [|apply max_id_above]. cbv beta. intros; lia.
Qed.

(** Dropping rows keeps the remaining ids distinct. *)
Lemma ids_distinct_filter (keep : deposit_row -> bool) (rs : list deposit_row) :
  NoDup (map row_id rs) -> NoDup (map row_id (filter keep rs)).
Proof.
  intros Hd. induction rs as [|r rs IH]; cbn [filter map] in *; [exact Hd|].
  apply NoDup_cons_iff in Hd. destruct Hd as [Hfresh Hd].
  destruct (keep r); cbn [map]; [|exact (IH Hd)].
  apply NoDup_cons_iff. split; [|exact (IH Hd)].
  intros Hin. apply Hfresh.
  apply in_map_iff in Hin. destruct Hin as (r' & E & Hr').
  apply filter_In in Hr'. apply in_map_iff. exists r'. tauto.
Qed.

Lemma Forall_filter {A : Type} (P : A -> Prop) (p : A -> bool) (l : list A) :
  Forall P l -> Forall P (filter p l).
Proof.
  intros H. apply Forall_forall. intros x Hx.
  apply filter_In in Hx. rewrite Forall_forall in H. now apply H.
Qed.

(** X24: Ids stay distinct and within the recorded sequence under saving and
    both deletions, and a saved row gets an id above every id in the
    table and above every id ever given: the id of a deleted row is never
    given again. *)
Theorem deposits_ids (t : deposits_table) (user date : string) (amount : R)
  (is_total : bool) (current_total : option R) (deposit_id : Z) :
  table_ok t ->
  table_ok (save_deposit t user date amount is_total current_total)
  /\ table_ok (delete_deposit t deposit_id)
  /\ table_ok (delete_all_deposits t user)
  /\ sequence t
     < sequence (save_deposit t user date amount is_total current_total)
  /\ sequence (delete_deposit t deposit_id) = sequence t
  /\ sequence (delete_all_deposits t user) = sequence t
  /\ Forall (fun r => row_id r < next_id t) (rows t).
Proof.
  intros [Hd Hs].
  destruct (next_id_above t) as [Hn Hf].
  split; [|split; [|split]]; [split|split|split|]; cbn [rows sequence save_deposit
    delete_deposit delete_all_deposits].
  - rewrite map_app. cbn [map row_id].
    apply NoDup_app; [exact Hd|repeat constructor; intros []|].
    intros a Ha [<-|[]].
    apply in_map_iff in Ha. destruct Ha as (r & E & Hr).
    rewrite Forall_forall in Hf. specialize (Hf r Hr). lia.
  - apply Forall_app. split.
    + eapply Forall_impl; [|exact Hf]. cbv beta. intros; lia.
    + constructor; [cbn [row_id]; lia|constructor].
  - now apply ids_distinct_filter.
  - now apply Forall_filter.
  - now apply ids_distinct_filter.
  - now apply Forall_filter.
  - repeat split; auto.
Qed.

(** X25: In a table with distinct ids, deleting the deposit of a row removes
    that row and no other. *)
Theorem delete_deposit_that_row (t : deposits_table) (r : deposit_row) :
  table_ok t -> In r (rows t) ->
  (forall r' : deposit_row,
     In r' (rows (delete_deposit t (row_id r))) <-> In r' (rows t) /\ r' <> r)
  /\ S (length (rows (delete_deposit t (row_id r)))) = length (rows t).
Proof.
  intros [Hd _] Hr. cbn [delete_deposit rows].
  assert (Hkey : forall r', In r' (rows t) -> row_id r' = row_id r -> r' = r).
  { revert Hd Hr. generalize (rows t) as l.
    induction l as [|a l IH]; cbn [map]; intros Hd Hr r' Hr' E; [destruct Hr|].
    inversion Hd as [|x xs Hn Hd']; subst.
    destruct Hr as [->|Hr], Hr' as [->|Hr']; auto.
    - exfalso. apply Hn. rewrite <- E. now apply in_map.
    - exfalso. apply Hn. rewrite E. now apply in_map. }
  split.
  - intros r'. rewrite filter_In. split.
    + intros [Hin Hb]. split; [exact Hin|]. intros ->.
      rewrite Z.eqb_refl in Hb. discriminate.
    + intros [Hin Hne]. split; [exact Hin|].
      apply negb_true_iff, Z.eqb_neq. intros E. apply Hne. now apply Hkey.
  - revert Hd Hr Hkey. generalize (rows t) as l.
    induction l as [|a l IH]; cbn [map filter length]; intros Hd Hr Hkey;
      [destruct Hr|].
    inversion Hd as [|x xs Hn Hd']; subst.
    destruct (Z.eqb_spec (row_id a) (row_id r)) as [E|E]; cbn [negb].
    + f_equal.
      assert (Hall : forall x, In x l -> negb (row_id x =? row_id r) = true).
      { intros x Hx. apply negb_true_iff, Z.eqb_neq. intros Ex.
        apply Hn. rewrite E, <- Ex. now apply in_map. }
      clear -Hall. induction l as [|b l IHl]; [reflexivity|].
      cbn [filter]. rewrite (Hall b (or_introl eq_refl)). cbn [length].
      f_equal. apply IHl. intros x Hx. apply Hall. now right.
    + cbn [length]. f_equal.
      destruct Hr as [->|Hr]; [congruence|].
      apply IH; [exact Hd'|exact Hr|].
      intros r' Hr' Er. apply Hkey; [now right|exact Er].
Qed.

Lemma ltb_leb (s1 s2 : string) : String.ltb s1 s2 = true -> String.leb s1 s2 = true.
Proof.
  unfold String.ltb, String.leb. destruct (String.compare s1 s2); congruence.
Qed.

Lemma not_ltb_leb (s1 s2 : string) :
  String.ltb s1 s2 = false -> String.leb s2 s1 = true.
Proof.
  unfold String.ltb, String.leb. rewrite (String.compare_antisym s2 s1).
  destruct (String.compare s1 s2); cbn; congruence.
Qed.

Lemma insert_by_date_perm (r : deposit_row) (rs : list deposit_row) :
  Permutation (insert_by_date r rs) (r :: rs).
Proof.
  induction rs as [|a rs IH]; cbn [insert_by_date]; [reflexivity|].
  destruct (String.ltb (row_date r) (row_date a)); [reflexivity|].
  rewrite IH. apply perm_swap.
Qed.

Lemma insert_by_date_sorted (r : deposit_row) (rs : list deposit_row) :
  Sorted date_leb rs -> Sorted date_leb (insert_by_date r rs).
Proof.
  induction rs as [|a rs IH]; cbn [insert_by_date]; intros Hs.
  - repeat constructor.
  - inversion Hs as [|x xs Hs' Hh]; subst.
    destruct (String.ltb (row_date r) (row_date a)) eqn:E.
    + constructor; [exact Hs|]. constructor. now apply ltb_leb.
    + constructor; [now apply IH|].
      destruct rs as [|b rs]; cbn [insert_by_date].
      * constructor. now apply not_ltb_leb.
      * destruct (String.ltb (row_date r) (row_date b)); constructor.
        -- now apply not_ltb_leb.
        -- now inversion Hh.
Qed.

Lemma order_by_date_fold (rs acc : list deposit_row) :
  Sorted date_leb acc ->
  Sorted date_leb (fold_left (fun a r => insert_by_date r a) rs acc)
  /\ Permutation (fold_left (fun a r => insert_by_date r a) rs acc) (rs ++ acc).
Proof.
  revert acc. induction rs as [|r rs IH]; intros acc Hs; cbn [fold_left List.app].
  - split; [exact Hs|reflexivity].
  - destruct (IH (insert_by_date r acc) (insert_by_date_sorted r acc Hs))
      as [H1 H2].
    split; [exact H1|].
    rewrite H2, insert_by_date_perm. symmetry. apply Permutation_middle.
Qed.

Lemma Sorted_map_columns (rs : list deposit_row) :
  Sorted date_leb rs -> dates_ascending (map columns rs).
Proof.
  unfold dates_ascending.
  induction 1 as [|a rs Hs IH Hh]; cbn [map]; constructor; [exact IH|].
  destruct Hh as [|b rs' Hab]; cbn [map]; constructor. exact Hab.
Qed.

(** X26: The rows a user gets are the rows of the table saved for that user,
    each once, in ascending order of date. *)
Theorem get_user_deposits_contract (t : deposits_table) (user : string) :
  Permutation (get_user_deposits t user)
    (map columns (where_user user (rows t)))
  /\ dates_ascending (get_user_deposits t user).
Proof.
  unfold get_user_deposits, order_by_date.
  destruct (order_by_date_fold (where_user user (rows t)) [] (Sorted_nil _))
    as [Hs Hp].
  rewrite app_nil_r in Hp.
  split; [now apply Permutation_map|now apply Sorted_map_columns].
Qed.

Lemma where_user_delete_all_same (user : string) (rs : list deposit_row) :
  where_user user
    (filter (fun r => negb (String.eqb (row_user r) user)) rs) = [].
Proof.
  induction rs as [|r rs IH]; [reflexivity|]. cbn [filter].
  destruct (String.eqb (row_user r) user) eqn:E; cbn [negb]; [exact IH|].
  cbn [where_user filter]. rewrite E. exact IH.
Qed.

Lemma where_user_delete_all_other (user user' : string) (rs : list deposit_row) :
  user' <> user ->
  where_user user'
    (filter (fun r => negb (String.eqb (row_user r) user)) rs)
  = where_user user' rs.
Proof.
  intros Hne. induction rs as [|r rs IH]; [reflexivity|]. cbn [filter where_user].
  destruct (String.eqb_spec (row_user r) user) as [E|E]; cbn [negb].
  - destruct (String.eqb_spec (row_user r) user') as [E'|E']; [congruence|].
    exact IH.
  - cbn [filter]. destruct (String.eqb (row_user r) user'); [f_equal|]; exact IH.
Qed.

(** X27: Deleting all the deposits of a user leaves that user with none and
    every other user with exactly what they had. *)
Theorem delete_all_deposits_isolated (t : deposits_table) (user : string) :
  get_user_deposits (delete_all_deposits t user) user = []
  /\ (forall user' : string,
        user' <> user ->
        get_user_deposits (delete_all_deposits t user) user'
        = get_user_deposits t user').
Proof.
  unfold get_user_deposits. cbn [delete_all_deposits rows]. split.
  - now rewrite where_user_delete_all_same.
  - intros user' Hne. now rewrite where_user_delete_all_other.
Qed.

(** X28: A saved deposit is added to what its user gets, with the fields it
    was saved with, the flag as 1 or 0, and a new id; what the other
    users get is unchanged. *)
Theorem save_deposit_then_get (t : deposits_table) (user date : string)
  (amount : R) (is_total : bool) (current_total : option R) :
  let t' := save_deposit t user date amount is_total current_total in
  Permutation (get_user_deposits t' user)
    ((next_id t, date, amount, if is_total then 1 else 0, current_total)
     :: get_user_deposits t user)
  /\ (forall user' : string,
        user' <> user -> get_user_deposits t' user' = get_user_deposits t user').
Proof.
  intros t'. unfold t', get_user_deposits, order_by_date.
  cbn [save_deposit rows]. unfold where_user. split.
  - rewrite filter_app. cbn [filter row_user]. rewrite String.eqb_refl.
    rewrite fold_left_app. cbn [fold_left].
    match goal with |- Permutation (map columns (insert_by_date ?r ?l)) _ =>
      change (Permutation (map columns (insert_by_date r l)) (columns r :: map columns l))
    end.
    rewrite insert_by_date_perm. reflexivity.
  - intros user' Hne. rewrite filter_app. cbn [filter row_user].
    destruct (String.eqb_spec user user') as [E|E]; [congruence|].
    now rewrite app_nil_r.
Qed.

End DepositsTable.

Section DepositsExamples.
Import Store String.
Local Open Scope string_scope.

Lemma empty_table_ok : table_ok {| rows := []; sequence := 0 |}.
Proof. split; constructor. Qed.

Lemma deposits_ids_witness :
  let t := {| rows := []; sequence := 0 |} in
  table_ok t
  /\ table_ok (save_deposit t "alice" "2024-01-15" 100 false None)
  /\ (sequence t
      < sequence (save_deposit t "alice" "2024-01-15" 100 false None))%Z.
Proof.
  intros t. split; [exact empty_table_ok|].
  destruct (deposits_ids t "alice" "2024-01-15" 100 false None 1 empty_table_ok)
    as (H1 & _ & _ & H4 & _).
  split; [exact H1|exact H4].
Defined.

Lemma delete_deposit_that_row_witness :
  let r := {| row_id := 1; row_user := "alice"; row_date := "2024-01-15";
              row_amount := 100; row_is_total := 0;
              row_current_total := None |} in
  let r2 := {| row_id := 2; row_user := "bob"; row_date := "2024-01-10";
               row_amount := 50; row_is_total := 0;
               row_current_total := None |} in
  let t := {| rows := [r; r2]; sequence := 2 |} in
  table_ok t /\ In r (rows t)
  /\ S (List.length (rows (delete_deposit t (row_id r)))) = List.length (rows t).
Proof.
  intros r r2 t.
  assert (Hok : table_ok t).
  { unfold t, r, r2. split; cbn [rows map row_id sequence].
    - constructor; [intros [E|[]]; discriminate E|].
      constructor; [intros []|constructor].
    - apply Forall_cons; [|apply Forall_cons; [|apply Forall_nil]];
        cbn [row_id]; lia. }
  assert (Hin : In r (rows t)) by (left; reflexivity).
  split; [exact Hok|]. split; [exact Hin|].
  apply (delete_deposit_that_row t r Hok Hin).
Defined.

End DepositsExamples.

Section MoreExamples.
Import Calendar Savings Reference Pages Further.
Local Open Scope R_scope.

Lemma run_forecast_aligned_witness :
  let rs := [mk_deposit (mk_datetime 2024 1 15) 100 false None;
             mk_deposit (mk_datetime 2024 3 20) 50 false None] in
  (exists fd : forecast_data,
     run_forecast rs 500 10 = Some fd
     /\ length (forecast_dates fd) = 120%nat
     /\ length (high fd) = length (forecast_dates fd))
  /\ axis_overflows (last (map date rs) 0%Z) 8100
  /\ run_forecast rs 500 8100 = None.
Proof.
  intros rs. split.
  - eexists. split; [reflexivity|].
    destruct (run_forecast_aligned rs 500 10) as [_ H].
    destruct (H _ eq_refl) as (_ & _ & H3 & _ & _ & H6).
    split; [exact H3|exact H6].
  - assert (Ho : axis_overflows (last (map date rs) 0%Z) 8100).
    { exists 97200%Z. split; [lia|]. vm_compute. reflexivity. }
    split; [exact Ho|].
    apply (proj1 (run_forecast_aligned rs 500 8100)). right. exact Ho.
Defined.

End MoreExamples.

Section MoreDepositsExamples.
Import Store String.
Local Open Scope string_scope.

Lemma delete_all_deposits_isolated_witness :
  let t := save_deposit
             (save_deposit {| rows := []; sequence := 0 |}
                "alice" "2024-01-15" 100 false None)
             "bob" "2024-01-10" 50 false None in
  "bob" <> "alice"
  /\ get_user_deposits (delete_all_deposits t "alice") "bob"
     = get_user_deposits t "bob".
Proof.
  intros t.
  assert (H : "bob" <> "alice") by discriminate.
  split; [exact H|].
  apply (proj2 (delete_all_deposits_isolated t "alice") "bob" H).
Defined.

Lemma save_deposit_then_get_witness :
  let t := save_deposit {| rows := []; sequence := 0 |}
             "alice" "2024-01-15" 100 false None in
  "bob" <> "alice"
  /\ get_user_deposits (save_deposit t "alice" "2024-02-01" 0 true (Some 500%R))
       "bob"
     = get_user_deposits t "bob".
Proof.
  intros t.
  assert (H : "bob" <> "alice") by discriminate.
  split; [exact H|].
  apply (proj2 (save_deposit_then_get t "alice" "2024-02-01" 0 true (Some 500%R))
           "bob" H).
Defined.

End MoreDepositsExamples.
